(** * StarBox: hierarchy assignment of celestial bodies

    A shallow embedding of [starbox/celestial.py]: the classes [Body],
    [Planet], [Star], [System], [Belt] and [Minor], their constructors and
    their methods [system] and [subAssign], over an explicit object store.

    Python objects are mutable and shared, attributes are looked up
    dynamically, and every method wraps its body in
    [try ... except AttributeError].  The embedding keeps all three: the
    store is a list of objects addressed by position, an attribute that was
    never assigned is [None] in the record and reading it raises
    [AttributeError], and the methods run in a state-and-exception monad in
    which a raise keeps the mutations made before it. *)

From Stdlib Require Import ZArith String Lia Sorted.
From stdpp Require Import base option list.

Open Scope string_scope.
Open Scope list_scope.

(** ** Values and objects *)

Abbreviation loc := nat.

(** A Python value as the module sees it: [None] or a reference to an
    object of the store. *)
Inductive value : Type :=
| VNone
| VRef (l : loc).

Global Instance value_eq_dec : EqDecision value.
Proof. solve_decision. Defined.

(** The classes of the module.  [GiantPlanet] and [DwarfPlanet] only
    override [bodySubtype] and [massUnit] of [Planet], [BlackHole] only
    [bodySubtype] of [Star]; they share the kind of their base class. *)
Inductive kind : Type :=
| KBody | KPlanet | KStar | KSystem | KBelt | KMinor.

Global Instance kind_eq_dec : EqDecision kind.
Proof. solve_decision. Defined.

(** Instance attributes read or written by [system], [subAssign] and the
    constructors' assignment step.  [None] means the attribute has not been
    assigned on the instance. *)
Record obj : Type := mkObj {
  cls : kind;
  name : option string;
  parent : option value;
  bodyRank : option Z;
  orbitals : option (list value);
  heads : option (list value);
  bodies : option (list value);
  bodySubtype : option string
}.

Definition blank (k : kind) : obj :=
  mkObj k None None None None None None None.

Definition with_name (s : string) (o : obj) : obj :=
  mkObj (cls o) (Some s) (parent o) (bodyRank o) (orbitals o) (heads o)
        (bodies o) (bodySubtype o).
Definition with_parent (p : value) (o : obj) : obj :=
  mkObj (cls o) (name o) (Some p) (bodyRank o) (orbitals o) (heads o)
        (bodies o) (bodySubtype o).
Definition with_bodyRank (r : Z) (o : obj) : obj :=
  mkObj (cls o) (name o) (parent o) (Some r) (orbitals o) (heads o)
        (bodies o) (bodySubtype o).
Definition with_orbitals (xs : list value) (o : obj) : obj :=
  mkObj (cls o) (name o) (parent o) (bodyRank o) (Some xs) (heads o)
        (bodies o) (bodySubtype o).
Definition with_heads (xs : list value) (o : obj) : obj :=
  mkObj (cls o) (name o) (parent o) (bodyRank o) (orbitals o) (Some xs)
        (bodies o) (bodySubtype o).
Definition with_bodies (xs : list value) (o : obj) : obj :=
  mkObj (cls o) (name o) (parent o) (bodyRank o) (orbitals o) (heads o)
        (Some xs) (bodySubtype o).
Definition with_bodySubtype (s : string) (o : obj) : obj :=
  mkObj (cls o) (name o) (parent o) (bodyRank o) (orbitals o) (heads o)
        (bodies o) (Some s).

(** The class attribute [bodyType]: [Body] and [Minor] do not define it. *)
Definition class_bodyType (k : kind) : option string :=
  match k with
  | KPlanet => Some "Planet"
  | KStar => Some "Star"
  | KSystem => Some "System"
  | KBelt => Some "Belt"
  | KBody | KMinor => None
  end.

Definition bodyType (o : obj) : option string := class_bodyType (cls o).

Abbreviation heap := (list obj).

(** ** The state-and-exception monad *)

(** [RecursionError] is what Python raises when the call depth runs out;
    no handler of the module catches it. *)
Inductive exn : Type := AttributeError | RecursionError.

Inductive res (A : Type) : Type :=
| Ok (a : A)
| Raise (e : exn).
Arguments Ok {A} a.
Arguments Raise {A} e.

Definition M (A : Type) : Type := heap -> heap * res A.

Definition ret {A} (a : A) : M A := fun h => (h, Ok a).
Definition raise {A} (e : exn) : M A := fun h => (h, Raise e).
Definition bind {A B} (m : M A) (k : A -> M B) : M B :=
  fun h =>
    match m h with
    | (h', Ok a) => k a h'
    | (h', Raise e) => (h', Raise e)
    end.

(** [try: m except AttributeError: handler] *)
Definition try_except {A} (m : M A) (handler : M A) : M A :=
  fun h =>
    match m h with
    | (h', Raise AttributeError) => handler h'
    | r => r
    end.

Declare Scope py_scope.
Delimit Scope py_scope with py.
Notation "x <- m ;; k" := (bind m (fun x => k))
  (at level 100, m at next level, right associativity) : py_scope.
Notation "m ;; k" := (bind m (fun _ => k))
  (at level 100, right associativity) : py_scope.
Open Scope py_scope.

(** ** Attribute access *)

(** Only objects of the store carry attributes. *)
Definition deref (v : value) : M (loc * obj) :=
  fun h =>
    match v with
    | VNone => (h, Raise AttributeError)
    | VRef l =>
        match h !! l with
        | Some o => (h, Ok (l, o))
        | None => (h, Raise AttributeError)
        end
    end.

(** [v.field] *)
Definition getattr {A} (field : obj -> option A) (v : value) : M A :=
  lo <- deref v ;;
  match field (snd lo) with
  | Some a => ret a
  | None => raise AttributeError
  end.

(** [v.field = x], with [upd] the record update *)
Definition setattr (upd : obj -> obj) (v : value) : M unit :=
  lo <- deref v ;;
  fun h => (<[fst lo := upd (snd lo)]> h, Ok tt).

(** [v.field.append(c)] *)
Definition append_to (field : obj -> option (list value))
    (upd : list value -> obj -> obj) (v c : value) : M unit :=
  xs <- getattr field v ;;
  setattr (upd (xs ++ [c])) v.

(** [v.append(c)]: no class of the module defines [append] and no code
    assigns it on an instance, so the lookup of the method fails. *)
Definition method_append (v c : value) : M unit :=
  getattr (fun _ : obj => @None unit) v.

Definition is_None (v : value) : bool :=
  match v with VNone => true | VRef _ => false end.

(** ** [system()] *)

Definition System_system (self : loc) : M value := ret (VRef self).

Definition Body_system (system : value -> M value) (self : loc) : M value :=
  try_except
    (p <- getattr parent (VRef self) ;; system p)
    (ret VNone).

Definition Star_system (system : value -> M value) (self : loc) : M value :=
  try_except
    (p <- getattr parent (VRef self) ;; system p)
    (ret VNone).

Definition Belt_system (system : value -> M value) (self : loc) : M value :=
  try_except
    (p <- getattr parent (VRef self) ;; system p)
    (ret VNone).

Definition Minor_system (system : value -> M value) (self : loc) : M value :=
  try_except
    (p <- getattr parent (VRef self) ;; system p)
    (ret VNone).

(** [v.system()] with [depth] call frames left: the method is looked up on
    [v] first (a value without it raises [AttributeError]), then a frame is
    entered and the method of [v]'s class runs. *)
Fixpoint call_system (depth : nat) (v : value) : M value :=
  lo <- deref v ;;
  match depth with
  | O => raise RecursionError
  | S d =>
      match cls (snd lo) with
      | KSystem => System_system (fst lo)
      | KBody | KPlanet => Body_system (call_system d) (fst lo)
      | KStar => Star_system (call_system d) (fst lo)
      | KBelt => Belt_system (call_system d) (fst lo)
      | KMinor => Minor_system (call_system d) (fst lo)
      end
  end.

(** ** [subAssign(childNew)] *)

Definition Body_subAssign (system : value -> M value)
    (subAssign : value -> value -> M unit)
    (self : loc) (childNew : value) : M unit :=
  try_except
    (append_to orbitals with_orbitals (VRef self) childNew ;;
     setattr (with_parent (VRef self)) childNew ;;
     r <- getattr bodyRank (VRef self) ;;
     setattr (with_bodyRank (r + 1)) childNew ;;
     s <- system (VRef self) ;;
     if is_None s then ret tt
     else (s' <- system (VRef self) ;; subAssign s' childNew))
    (ret tt).

Definition Star_subAssign (subAssign : value -> value -> M unit)
    (self : loc) (childNew : value) : M unit :=
  try_except
    (append_to orbitals with_orbitals (VRef self) childNew ;;
     setattr (with_parent (VRef self)) childNew ;;
     r <- getattr bodyRank (VRef self) ;;
     setattr (with_bodyRank (r + 1)) childNew ;;
     p <- getattr parent (VRef self) ;;
     bt <- getattr bodyType p ;;
     if String.eqb bt "System"
     then (p' <- getattr parent (VRef self) ;; subAssign p' childNew)
     else ret tt)
    (ret tt).

Definition System_subAssign (self : loc) (childNew : value) : M unit :=
  try_except
    (rc <- getattr bodyRank childNew ;;
     rs <- getattr bodyRank (VRef self) ;;
     if (rc >? rs)%Z
     then append_to bodies with_bodies (VRef self) childNew
     else
       (rc' <- getattr bodyRank childNew ;;
        rs' <- getattr bodyRank (VRef self) ;;
        if (rc' =? rs')%Z
        then append_to heads with_heads (VRef self) childNew
        else ret tt))
    (ret tt).

Definition Belt_subAssign (subAssign : value -> value -> M unit)
    (self : loc) (childNew : value) : M unit :=
  try_except
    (append_to orbitals with_orbitals (VRef self) childNew ;;
     setattr (with_parent (VRef self)) childNew ;;
     r <- getattr bodyRank (VRef self) ;;
     setattr (with_bodyRank (r + 1)) childNew ;;
     p <- getattr parent (VRef self) ;;
     bt <- getattr bodyType p ;;
     if String.eqb bt "System"
     then (p' <- getattr parent (VRef self) ;; subAssign p' childNew)
     else ret tt)
    (ret tt).

Definition Minor_subAssign (system : value -> M value)
    (subAssign : value -> value -> M unit)
    (self : loc) (childNew : value) : M unit :=
  try_except
    (method_append (VRef self) childNew ;;
     setattr (with_parent (VRef self)) childNew ;;
     r <- getattr bodyRank (VRef self) ;;
     setattr (with_bodyRank (r + 1)) childNew ;;
     s <- system (VRef self) ;;
     if is_None s then ret tt
     else (s' <- system (VRef self) ;; subAssign s' childNew))
    (ret tt).

(** [v.subAssign(childNew)] with [depth] call frames left. *)
Fixpoint call_subAssign (depth : nat) (v childNew : value) : M unit :=
  lo <- deref v ;;
  match depth with
  | O => raise RecursionError
  | S d =>
      match cls (snd lo) with
      | KSystem => System_subAssign (fst lo) childNew
      | KBody | KPlanet =>
          Body_subAssign (call_system d) (call_subAssign d) (fst lo) childNew
      | KStar => Star_subAssign (call_subAssign d) (fst lo) childNew
      | KBelt => Belt_subAssign (call_subAssign d) (fst lo) childNew
      | KMinor =>
          Minor_subAssign (call_system d) (call_subAssign d) (fst lo) childNew
      end
  end.

(** ** Constructors *)

(** A new instance without attributes; its reference is the next free
    position of the store. *)
Definition alloc (k : kind) : M loc :=
  fun h => (h ++ [blank k], Ok (length h)).

(** [Body.__init__]: assigns neither [parent] nor [bodyRank]. *)
Definition Body_init (self : loc) (nm : string) : M unit :=
  setattr (with_name nm) (VRef self) ;;
  setattr (with_orbitals []) (VRef self).

Definition Body_new (nm : string) : M loc :=
  self <- alloc KBody ;;
  Body_init self nm ;;
  ret self.

(** The step shared by the constructors:
    [try: self.parent.subAssign(self) except AttributeError: pass] *)
Definition assign_to_parent (depth : nat) (self : loc) : M unit :=
  try_except
    (p <- getattr parent (VRef self) ;; call_subAssign depth p (VRef self))
    (ret tt).

Definition Planet_init (depth : nat) (self : loc) (nm : string)
    (par : value) : M unit :=
  Body_init self nm ;;
  setattr (with_parent par) (VRef self) ;;
  setattr (with_orbitals []) (VRef self) ;;
  setattr (with_bodyRank 3) (VRef self) ;;
  assign_to_parent depth self.

Definition Star_init (depth : nat) (self : loc) (nm : string)
    (par : value) : M unit :=
  setattr (with_name nm) (VRef self) ;;
  setattr (with_parent par) (VRef self) ;;
  setattr (with_orbitals []) (VRef self) ;;
  setattr (with_bodyRank 2) (VRef self) ;;
  assign_to_parent depth self.

Definition System_init (depth : nat) (self : loc) (nm : string)
    (par : value) (rank : Z) : M unit :=
  setattr (with_name nm) (VRef self) ;;
  setattr (with_parent par) (VRef self) ;;
  setattr (with_heads []) (VRef self) ;;
  setattr (with_bodies []) (VRef self) ;;
  setattr (with_bodyRank rank) (VRef self) ;;
  assign_to_parent depth self.

Definition Belt_init (depth : nat) (self : loc) (nm : string)
    (par : value) (rank : Z) : M unit :=
  setattr (with_name nm) (VRef self) ;;
  setattr (with_parent par) (VRef self) ;;
  setattr (with_orbitals []) (VRef self) ;;
  setattr (with_bodyRank rank) (VRef self) ;;
  assign_to_parent depth self ;;
  p <- getattr parent (VRef self) ;;
  bt <- getattr bodyType p ;;
  if String.eqb bt "Star"
  then setattr (with_bodySubtype "Belt") (VRef self)
  else
    (p' <- getattr parent (VRef self) ;;
     bt' <- getattr bodyType p' ;;
     if String.eqb bt' "Planet"
     then setattr (with_bodySubtype "Ring") (VRef self)
     else setattr (with_bodySubtype "Cloud") (VRef self)).

Definition Minor_init (depth : nat) (self : loc) (nm : string)
    (par : value) : M unit :=
  setattr (with_name nm) (VRef self) ;;
  setattr (with_parent par) (VRef self) ;;
  setattr (with_bodyRank 4) (VRef self) ;;
  assign_to_parent depth self.

(** [Planet(nm, par)], [Star(nm, par)], [System(nm, par, rank=rank)],
    [Belt(nm, par, rank=rank)], [Minor(nm, par)]: allocate, run
    [__init__], return the instance. *)
Definition Planet_new (depth : nat) (nm : string) (par : value) : M loc :=
  self <- alloc KPlanet ;; Planet_init depth self nm par ;; ret self.
Definition Star_new (depth : nat) (nm : string) (par : value) : M loc :=
  self <- alloc KStar ;; Star_init depth self nm par ;; ret self.
Definition System_new (depth : nat) (nm : string) (par : value)
    (rank : Z) : M loc :=
  self <- alloc KSystem ;; System_init depth self nm par rank ;; ret self.
Definition Belt_new (depth : nat) (nm : string) (par : value)
    (rank : Z) : M loc :=
  self <- alloc KBelt ;; Belt_init depth self nm par rank ;; ret self.
Definition Minor_new (depth : nat) (nm : string) (par : value) : M loc :=
  self <- alloc KMinor ;; Minor_init depth self nm par ;; ret self.

(** ** The constructors, as one family *)

(** The five constructors that take a parent. *)
Inductive ctor : Type :=
| CPlanet | CStar | CSystem (rank : Z) | CBelt (rank : Z) | CMinor.

Definition construct (k : ctor) (depth : nat) (nm : string) (par : value)
    : M loc :=
  match k with
  | CPlanet => Planet_new depth nm par
  | CStar => Star_new depth nm par
  | CSystem rank => System_new depth nm par rank
  | CBelt rank => Belt_new depth nm par rank
  | CMinor => Minor_new depth nm par
  end.

(** The instance as [__init__] has filled it in when it reaches
    [self.parent.subAssign(self)]. *)
Definition fresh (k : ctor) (nm : string) (par : value) : obj :=
  match k with
  | CPlanet =>
      mkObj KPlanet (Some nm) (Some par) (Some 3%Z) (Some []) None None None
  | CStar =>
      mkObj KStar (Some nm) (Some par) (Some 2%Z) (Some []) None None None
  | CSystem rank =>
      mkObj KSystem (Some nm) (Some par) (Some rank) None (Some []) (Some [])
        None
  | CBelt rank =>
      mkObj KBelt (Some nm) (Some par) (Some rank) (Some []) None None None
  | CMinor =>
      mkObj KMinor (Some nm) (Some par) (Some 4%Z) None None None None
  end.

(** What [__init__] does after the assignment step: only [Belt] goes on,
    to choose its [bodySubtype] from [self.parent.bodyType]. *)
Definition finish (k : ctor) (self : loc) : M unit :=
  match k with
  | CBelt _ =>
      p <- getattr parent (VRef self) ;;
      bt <- getattr bodyType p ;;
      if String.eqb bt "Star"
      then setattr (with_bodySubtype "Belt") (VRef self)
      else
        (p' <- getattr parent (VRef self) ;;
         bt' <- getattr bodyType p' ;;
         if String.eqb bt' "Planet"
         then setattr (with_bodySubtype "Ring") (VRef self)
         else setattr (with_bodySubtype "Cloud") (VRef self))
  | _ => ret tt
  end.

(** ** Shapes of the store *)

(** The body shared by [system] of every class but [System]. *)
Definition walk_up (system : value -> M value) (self : loc) : M value :=
  try_except (p <- getattr parent (VRef self) ;; system p) (ret VNone).

(** [ancestry h l path r]: following [parent] from [l] visits exactly the
    objects of [path] ([l] first) and ends either at the first [System]
    met, [r = VRef S] with [S] the last of [path], or at an object that is
    not a [System] and whose [parent] is unassigned or [None], [r = VNone]. *)
Inductive ancestry (h : heap) : loc -> list loc -> value -> Prop :=
| anc_system l o :
    h !! l = Some o -> cls o = KSystem ->
    ancestry h l [l] (VRef l)
| anc_orphan l o :
    h !! l = Some o -> cls o <> KSystem ->
    (parent o = None \/ parent o = Some VNone) ->
    ancestry h l [l] VNone
| anc_step l o p path r :
    h !! l = Some o -> cls o <> KSystem ->
    parent o = Some (VRef p) ->
    ancestry h p path r ->
    ancestry h l (l :: path) r.

(** [self.parent] exists and is a [System]: the object the child is
    forwarded to, if any. *)
Definition system_parent (h : heap) (o : obj) : option loc :=
  match parent o with
  | Some (VRef p) =>
      match h !! p with
      | Some op => if decide (cls op = KSystem) then Some p else None
      | None => None
      end
  | _ => None
  end.

(** The store after [self.orbitals.append(c)], [c.parent = self] and
    [c.bodyRank = self.bodyRank + 1], for a child [c] other than [self]. *)
Definition attached (h : heap) (self : loc) (o : obj) (os : list value)
    (r : Z) (c : loc) (oc : obj) : heap :=
  <[c := with_bodyRank (r + 1) (with_parent (VRef self) oc)]>
    (<[self := with_orbitals (os ++ [VRef c]) o]> h).

(** A reference held by the store points into it. *)
Definition allocated (h : heap) (v : value) : Prop :=
  match v with
  | VRef l => l < length h
  | VNone => True
  end.

(** Everything of an object but the two lists of a [System]. *)
Definition core (o : obj) :=
  (cls o, name o, parent o, bodyRank o, orbitals o, bodySubtype o).

(** Class, parent and rank of an object. *)
Definition attrs (o : obj) := (cls o, parent o, bodyRank o).

(** ** Sample stores *)

(** [Sol] (0), its star [Sun] (1), [Earth] (2) around the Sun, [Luna] (3)
    around Earth, the belt [Inner] (4) around Sol, [Vesta] (5) in the
    belt, and a body [Rogue] (6) without parent. *)
Definition sample : M unit :=
  sol <- System_new 10 "Sol" VNone 2 ;;
  sun <- Star_new 10 "Sun" (VRef sol) ;;
  earth <- Planet_new 10 "Earth" (VRef sun) ;;
  luna <- Planet_new 10 "Luna" (VRef earth) ;;
  inner <- Belt_new 10 "Inner" (VRef sol) 3 ;;
  vesta <- Minor_new 10 "Vesta" (VRef inner) ;;
  rogue <- Planet_new 10 "Rogue" VNone ;;
  ret tt.

Definition sample_heap : heap := Eval vm_compute in fst (sample []).

(** A System of rank 4 (0), a Star built under it (1) and a planet
    without parent (2). *)
Definition high_rank_sample : M unit :=
  x <- System_new 10 "X" VNone 4 ;;
  s <- Star_new 10 "S" (VRef x) ;;
  p <- Planet_new 10 "P" VNone ;;
  ret tt.

Definition high_rank_heap : heap := Eval vm_compute in fst (high_rank_sample []).

(** A System (0), a planet around it (1), a belt around the planet (2)
    and a minor body without parent (3). *)
Definition ring_sample : M unit :=
  sol <- System_new 10 "Sol" VNone 2 ;;
  saturn <- Planet_new 10 "Saturn" (VRef sol) ;;
  rings <- Belt_new 10 "Rings" (VRef saturn) 3 ;;
  rock <- Minor_new 10 "Rock" VNone ;;
  ret tt.

Definition ring_heap : heap := Eval vm_compute in fst (ring_sample []).

(** A System (0) and a belt around it (1). *)
Definition belt_sample : M unit :=
  sol <- System_new 10 "Sol" VNone 2 ;;
  inner <- Belt_new 10 "Inner Belt" (VRef sol) 3 ;;
  ret tt.

Definition belt_heap : heap := Eval vm_compute in fst (belt_sample []).

(** ** The store only grows *)

(** [o'] is [o] later on: same class and name, the three lists extended at
    the end, and [parent] and [bodyRank] still assigned if they were. *)
Definition grows_obj (o o' : obj) : Prop :=
  cls o' = cls o /\ name o' = name o /\
  (forall xs, orbitals o = Some xs -> exists ys, orbitals o' = Some (xs ++ ys)) /\
  (forall xs, heads o = Some xs -> exists ys, heads o' = Some (xs ++ ys)) /\
  (forall xs, bodies o = Some xs -> exists ys, bodies o' = Some (xs ++ ys)) /\
  (is_Some (parent o) -> is_Some (parent o')) /\
  (is_Some (bodyRank o) -> is_Some (bodyRank o')).

Definition grows (h h' : heap) : Prop :=
  forall l o, h !! l = Some o -> exists o', h' !! l = Some o' /\ grows_obj o o'.

(** A computation that only lets the store grow, however it ends. *)
Definition keeps {A} (m : M A) : Prop := forall h, grows h (fst (m h)).

(** A set of objects, none a [System], whose parents stay inside the set:
    following [parent] from any of them never ends. *)
Definition parent_closed (h : heap) (C : loc -> Prop) : Prop :=
  forall l, C l ->
    exists o p, h !! l = Some o /\ cls o <> KSystem /\
      parent o = Some (VRef p) /\ C p.

(** The [bodySubtype] that [Belt.__init__] derives from the [bodyType] of
    the parent. *)
Definition Belt_subtype_of (bt : string) : string :=
  if String.eqb bt "Star" then "Belt"
  else if String.eqb bt "Planet" then "Ring" else "Cloud".

(** The instance when its constructor returns under a [System]. *)
Definition finished (k : ctor) (nm : string) (par : value) : obj :=
  match k with
  | CBelt _ => with_bodySubtype "Cloud" (fresh k nm par)
  | _ => fresh k nm par
  end.

(** The [bodyRank] a constructor assigns before the assignment step. *)
Definition ctor_rank (k : ctor) : Z :=
  match k with
  | CPlanet => 3
  | CStar => 2
  | CSystem rank => rank
  | CBelt rank => rank
  | CMinor => 4
  end.

(** ** Largest proportion *)

(** The exceptions of the module-level functions. *)
Inductive pyerr : Type := KeyError | IndexError.

(** A stable ascending sort that compares with [<] only: [ins] puts [x] in
    front of the first element that is not smaller, so [x], which stood
    before the elements already sorted, stays before its equals. *)
Fixpoint ins {A} (lt : A -> A -> bool) (x : A) (l : list A) : list A :=
  match l with
  | [] => [x]
  | y :: l' => if lt y x then y :: ins lt x l' else x :: y :: l'
  end.

Fixpoint sort_asc {A} (lt : A -> A -> bool) (l : list A) : list A :=
  match l with
  | [] => []
  | x :: xs => ins lt x (sort_asc lt xs)
  end.

(** [a] does not come after [b] in ascending order. *)
Definition not_after {A} (lt : A -> A -> bool) (a b : A) : Prop :=
  lt b a = false.

(** [sorted(l, key=key, reverse=True)]: the list is reversed, sorted
    ascending and stable, and reversed again, which keeps equal elements
    in their original order. *)
Definition sorted_reverse {A V} (lt : V -> V -> bool) (key : A -> V)
    (l : list A) : list A :=
  reverse (sort_asc (fun a b => lt (key a) (key b)) (reverse l)).

(** [findLargestProportion(din)], the dict [din] given by its items in
    insertion order: iterating [din] yields their keys, and [din.get(k)]
    and [din[k]] on such a key yield the value of its item. *)
Definition findLargestProportion {V} (lt : V -> V -> bool)
    (din : list (string * V)) : string + pyerr :=
  let dsort := sorted_reverse lt snd din in
  match dsort with
  | [] => inr IndexError
  | kv :: _ => inl (fst kv)
  end.

(** ** More sample stores *)

(** Two planets (0, 1), each the parent of the other. *)
Definition cycle_heap : heap :=
  [mkObj KPlanet (Some "A") (Some (VRef 1)) (Some 4%Z) (Some [VRef 1]) None
     None None;
   mkObj KPlanet (Some "B") (Some (VRef 0)) (Some 4%Z) (Some [VRef 0]) None
     None None].

(** A plain [Body] (0), as [Body("Drifter")] leaves it, a minor body (1)
    and a planet (2), all without parent. *)
Definition loose_sample : M unit :=
  drifter <- Body_new "Drifter" ;;
  rock <- Minor_new 10 "Rock" VNone ;;
  p <- Planet_new 10 "Wanderer" VNone ;;
  ret tt.

Definition loose_heap : heap := Eval vm_compute in fst (loose_sample []).

(** A System [Sol] (0), a System [Inner] (1) built with [Sol] as parent,
    and a planet (2) built with [Inner] as parent. *)
Definition nested_sample : M unit :=
  sol <- System_new 10 "Sol" VNone 2 ;;
  inner <- System_new 10 "Inner" (VRef sol) 2 ;;
  p <- Planet_new 10 "P" (VRef inner) ;;
  ret tt.

Definition nested_heap : heap := Eval vm_compute in fst (nested_sample []).

(** * Properties *)

(** ** Running the primitives *)

Lemma deref_ok (h : heap) l o :
  h !! l = Some o -> deref (VRef l) h = (h, Ok (l, o)).
Proof. intros H. unfold deref. now rewrite H. Qed.

Lemma getattr_ok {A} (field : obj -> option A) (h : heap) l o a :
  h !! l = Some o -> field o = Some a ->
  getattr field (VRef l) h = (h, Ok a).
Proof.
  intros H Hf. unfold getattr, bind. rewrite (deref_ok _ _ _ H). simpl.
  now rewrite Hf.
Qed.

Lemma getattr_missing {A} (field : obj -> option A) (h : heap) l o :
  h !! l = Some o -> field o = None ->
  getattr field (VRef l) h = (h, Raise AttributeError).
Proof.
  intros H Hf. unfold getattr, bind. rewrite (deref_ok _ _ _ H). simpl.
  now rewrite Hf.
Qed.

Lemma setattr_ok upd (h : heap) l o :
  h !! l = Some o -> setattr upd (VRef l) h = (<[l := upd o]> h, Ok tt).
Proof.
  intros H. unfold setattr, bind. now rewrite (deref_ok _ _ _ H).
Qed.

Lemma append_to_ok field upd (h : heap) l o xs c :
  h !! l = Some o -> field o = Some xs ->
  append_to field upd (VRef l) c h = (<[l := upd (xs ++ [c]) o]> h, Ok tt).
Proof.
  intros H Hf. unfold append_to, bind.
  rewrite (getattr_ok _ _ _ _ _ H Hf). now apply setattr_ok.
Qed.

Lemma bind_ok {A B} (m : M A) (k : A -> M B) (h h' : heap) a :
  m h = (h', Ok a) -> bind m k h = k a h'.
Proof. intros H. unfold bind. now rewrite H. Qed.

Lemma bind_raise {A B} (m : M A) (k : A -> M B) (h h' : heap) e :
  m h = (h', Raise e) -> bind m k h = (h', Raise e).
Proof. intros H. unfold bind. now rewrite H. Qed.

(** Reading the store never changes it. *)
Lemma getattr_frame {A} (field : obj -> option A) v (h : heap) :
  fst (getattr field v h) = h.
Proof.
  unfold getattr, bind, deref. destruct v; [reflexivity|].
  destruct (h !! l); [|reflexivity]. simpl. now destruct (field o).
Qed.

(** ** [system()] reads only *)

Lemma call_system_step d l o (h : heap) :
  h !! l = Some o ->
  call_system (S d) (VRef l) h =
  if decide (cls o = KSystem) then (h, Ok (VRef l))
  else walk_up (call_system d) l h.
Proof.
  intros H. simpl. unfold bind at 1. rewrite (deref_ok _ _ _ H). simpl.
  destruct (cls o); reflexivity.
Qed.

Lemma call_system_no_object d v (h : heap) :
  (forall l, v = VRef l -> h !! l = None) ->
  call_system d v h = (h, Raise AttributeError).
Proof.
  intros H. destruct d; simpl; unfold bind, deref;
    (destruct v as [|l]; [reflexivity|]; now rewrite (H l eq_refl)).
Qed.

Lemma call_system_frame d : forall v (h : heap), fst (call_system d v h) = h.
Proof.
  induction d as [|d IH]; intros v h.
  - simpl. unfold bind, deref. destruct v; [reflexivity|].
    now destruct (h !! l).
  - destruct v as [|l]; [reflexivity|].
    destruct (h !! l) as [o|] eqn:Hl.
    + rewrite (call_system_step _ _ _ _ Hl).
      destruct (decide (cls o = KSystem)); [reflexivity|].
      unfold walk_up, try_except, bind.
      destruct (parent o) as [p|] eqn:Hp.
      * rewrite (getattr_ok _ _ _ _ _ Hl Hp).
        specialize (IH p h). destruct (call_system d p h) as [h' [a|[|]]];
          simpl in *; subst; reflexivity.
      * rewrite (getattr_missing _ _ _ _ Hl Hp). reflexivity.
    + rewrite call_system_no_object; [reflexivity|]. now intros ? [= <-].
Qed.

(** [system()] only ever returns [None] or a [System] of the store. *)
Lemma call_system_result d :
  forall v (h h' : heap) S,
    call_system d v h = (h', Ok (VRef S)) ->
    exists oS, h !! S = Some oS /\ cls oS = KSystem.
Proof.
  induction d as [|d IH]; intros v h h' S.
  - simpl. unfold bind, deref. destruct v; [discriminate|].
    destruct (h !! l); discriminate.
  - destruct v as [|l]; [discriminate|].
    destruct (h !! l) as [o|] eqn:Hl.
    + rewrite (call_system_step _ _ _ _ Hl).
      destruct (decide (cls o = KSystem)) as [Hk|Hk].
      * intros [= <- <-]. eauto.
      * unfold walk_up, try_except, bind.
        destruct (parent o) as [p|] eqn:Hp.
        -- rewrite (getattr_ok _ _ _ _ _ Hl Hp).
           destruct (call_system d p h) as [h1 [a|[|]]] eqn:E.
           ++ intros [= <- ->]. eapply IH; eauto.
           ++ discriminate.
           ++ discriminate.
        -- rewrite (getattr_missing _ _ _ _ Hl Hp). discriminate.
    + rewrite call_system_no_object; [discriminate|]. now intros ? [= <-].
Qed.

(** ** Ancestor chains *)

Lemma call_system_ancestry (h : heap) l path r :
  ancestry h l path r ->
  forall d, length path <= d -> call_system d (VRef l) h = (h, Ok r).
Proof.
  induction 1 as [l o Hl Hk|l o Hl Hk Hp|l o p path r Hl Hk Hp Hanc IH];
    intros d Hd; (destruct d as [|d]; [simpl in Hd; lia|]);
    rewrite (call_system_step _ _ _ _ Hl).
  - destruct (decide (cls o = KSystem)); [reflexivity|contradiction].
  - destruct (decide (cls o = KSystem)); [contradiction|].
    unfold walk_up, try_except, bind. destruct Hp as [Hp|Hp].
    + now rewrite (getattr_missing _ _ _ _ Hl Hp).
    + rewrite (getattr_ok _ _ _ _ _ Hl Hp).
      rewrite call_system_no_object; [reflexivity|discriminate].
  - destruct (decide (cls o = KSystem)); [contradiction|].
    unfold walk_up, try_except, bind.
    rewrite (getattr_ok _ _ _ _ _ Hl Hp).
    rewrite IH; [reflexivity|]. simpl in Hd. lia.
Qed.

(** ** [System.subAssign] *)

Lemma call_subAssign_System d S oS c (h : heap) :
  h !! S = Some oS -> cls oS = KSystem ->
  call_subAssign (Datatypes.S d) (VRef S) c h = System_subAssign S c h.
Proof.
  intros H Hk. simpl. unfold bind at 1. rewrite (deref_ok _ _ _ H). simpl.
  now rewrite Hk.
Qed.

Lemma getattr_cases {A} (field : obj -> option A) v (h : heap) :
  getattr field v h = (h, Raise AttributeError) \/
  exists l o a, v = VRef l /\ h !! l = Some o /\ field o = Some a /\
    getattr field v h = (h, Ok a).
Proof.
  destruct v as [|l]; [now left|].
  destruct (h !! l) as [o|] eqn:Hl.
  - destruct (field o) as [a|] eqn:Hf.
    + right. exists l, o, a. eauto using getattr_ok.
    + left. eapply getattr_missing; eauto.
  - left. unfold getattr, bind, deref. now rewrite Hl.
Qed.

Lemma System_subAssign_run S oS rs c oc rc (h : heap) :
  h !! S = Some oS -> bodyRank oS = Some rs ->
  h !! c = Some oc -> bodyRank oc = Some rc ->
  System_subAssign S (VRef c) h =
  try_except
    (if (rc >? rs)%Z
     then append_to bodies with_bodies (VRef S) (VRef c)
     else if (rc =? rs)%Z
          then append_to heads with_heads (VRef S) (VRef c)
          else ret tt)
    (ret tt) h.
Proof.
  intros HS Hrs Hc Hrc. unfold System_subAssign, try_except.
  rewrite (bind_ok _ _ _ _ _ (getattr_ok _ _ _ _ _ Hc Hrc)).
  rewrite (bind_ok _ _ _ _ _ (getattr_ok _ _ _ _ _ HS Hrs)).
  destruct (rc >? rs)%Z; [reflexivity|].
  rewrite (bind_ok _ _ _ _ _ (getattr_ok _ _ _ _ _ Hc Hrc)).
  rewrite (bind_ok _ _ _ _ _ (getattr_ok _ _ _ _ _ HS Hrs)).
  reflexivity.
Qed.

Lemma append_to_cases field upd S c (h : heap) :
  try_except (append_to field upd (VRef S) c) (ret tt) h = (h, Ok tt) \/
  exists oS xs, h !! S = Some oS /\
    try_except (append_to field upd (VRef S) c) (ret tt) h
    = (<[S := upd xs oS]> h, Ok tt).
Proof.
  unfold try_except.
  destruct (getattr_cases field (VRef S) h)
    as [HS|(? & oS & xs & [= <-] & HlS & Hxs & _)].
  - left. unfold append_to. now rewrite (bind_raise _ _ _ _ _ HS).
  - right. exists oS, (xs ++ [c]). split; [done|].
    now rewrite (append_to_ok _ _ _ _ _ _ _ HlS Hxs).
Qed.

Lemma core_insert (h : heap) l o o' :
  h !! l = Some o -> core o' = core o ->
  core <$> <[l := o']> h = core <$> h.
Proof.
  intros H Hc. rewrite list_fmap_insert, Hc.
  apply list_insert_id. now rewrite list_lookup_fmap, H.
Qed.

(** What a call of [System.subAssign] can do at all: nothing, or replace
    one of the two lists of the [System]. *)
Lemma System_subAssign_shape S c (h : heap) :
  exists h', System_subAssign S c h = (h', Ok tt) /\
    (h' = h \/
     exists oS xs, h !! S = Some oS /\
       (h' = <[S := with_bodies xs oS]> h \/
        h' = <[S := with_heads xs oS]> h)).
Proof.
  destruct (getattr_cases bodyRank c h)
    as [Hc|(lc & oc & rc & -> & Hlc & Hrc & _)].
  { exists h. split; [|now left].
    unfold System_subAssign, try_except. now rewrite (bind_raise _ _ _ _ _ Hc). }
  destruct (getattr_cases bodyRank (VRef S) h)
    as [HS|(? & oS & rs & [= <-] & HlS & Hrs & _)].
  { exists h. split; [|now left].
    unfold System_subAssign, try_except.
    rewrite (bind_ok _ _ _ _ _ (getattr_ok _ _ _ _ _ Hlc Hrc)).
    now rewrite (bind_raise _ _ _ _ _ HS). }
  rewrite (System_subAssign_run _ _ _ _ _ _ _ HlS Hrs Hlc Hrc).
  destruct (rc >? rs)%Z; [|destruct (rc =? rs)%Z].
  - destruct (append_to_cases bodies with_bodies S (VRef lc) h)
      as [->|(o' & xs & Ho' & ->)]; eauto 10.
  - destruct (append_to_cases heads with_heads S (VRef lc) h)
      as [->|(o' & xs & Ho' & ->)]; eauto 10.
  - exists h. split; [reflexivity|now left].
Qed.
Lemma System_subAssign_core S c (h : heap) :
  core <$> fst (System_subAssign S c h) = core <$> h.
Proof.
  destruct (System_subAssign_shape S c h) as (h' & -> & Hh'). simpl.
  destruct Hh' as [->|(oS & xs & HS & [->| ->])]; [reflexivity| |];
    now apply (core_insert _ _ oS).
Qed.

Lemma System_subAssign_others S c (h : heap) l :
  l <> S -> fst (System_subAssign S c h) !! l = h !! l.
Proof.
  intros Hne. destruct (System_subAssign_shape S c h) as (h' & -> & Hh').
  simpl. destruct Hh' as [->|(oS & xs & HS & [->| ->])]; [reflexivity| |];
    now apply list_lookup_insert_ne.
Qed.

Lemma core_lookup (h h' : heap) l o :
  core <$> h' = core <$> h -> h !! l = Some o ->
  exists o', h' !! l = Some o' /\ core o' = core o.
Proof.
  intros Hc H.
  assert (Hl : (core <$> h') !! l = Some (core o))
    by now rewrite Hc, list_lookup_fmap, H.
  rewrite list_lookup_fmap in Hl.
  destruct (h' !! l) as [o'|]; [|discriminate]. simpl in Hl.
  exists o'. split; congruence.
Qed.

(** ** The three assignments shared by [Body], [Star] and [Belt] *)

Lemma attach_run {A} (K : M A) (h : heap) self o os r c oc :
  h !! self = Some o -> orbitals o = Some os -> bodyRank o = Some r ->
  h !! c = Some oc -> c <> self ->
  (append_to orbitals with_orbitals (VRef self) (VRef c) ;;
   setattr (with_parent (VRef self)) (VRef c) ;;
   r <- getattr bodyRank (VRef self) ;;
   setattr (with_bodyRank (r + 1)) (VRef c) ;;
   K) h
  = K (attached h self o os r c oc).
Proof.
  intros Hs Hos Hr Hc Hne.
  pose proof (lookup_lt_Some _ _ _ Hs) as Hlts.
  pose proof (lookup_lt_Some _ _ _ Hc) as Hltc.
  rewrite (bind_ok _ _ _ _ _ (append_to_ok _ _ _ _ _ _ (VRef c) Hs Hos)).
  set (h1 := <[self := with_orbitals (os ++ [VRef c]) o]> h).
  assert (Hc1 : h1 !! c = Some oc)
    by (unfold h1; now rewrite list_lookup_insert_ne).
  assert (Hs1 : h1 !! self = Some (with_orbitals (os ++ [VRef c]) o))
    by (unfold h1; now apply list_lookup_insert_eq).
  rewrite (bind_ok _ _ _ _ _ (setattr_ok _ _ _ _ Hc1)).
  set (h2 := <[c := with_parent (VRef self) oc]> h1).
  assert (Hs2 : h2 !! self = Some (with_orbitals (os ++ [VRef c]) o))
    by (unfold h2; now rewrite list_lookup_insert_ne).
  assert (Hc2 : h2 !! c = Some (with_parent (VRef self) oc)).
  { unfold h2. apply list_lookup_insert_eq. unfold h1.
    now rewrite length_insert. }
  rewrite (bind_ok _ _ _ _ r (getattr_ok bodyRank _ _ _ _ Hs2 Hr)).
  rewrite (bind_ok _ _ _ _ _ (setattr_ok _ _ _ _ Hc2)).
  unfold h2. rewrite list_insert_insert_eq. reflexivity.
Qed.

Lemma attached_self (h : heap) self o os r c oc :
  h !! self = Some o -> c <> self ->
  attached h self o os r c oc !! self
  = Some (with_orbitals (os ++ [VRef c]) o).
Proof.
  intros Hs Hne. unfold attached. rewrite list_lookup_insert_ne by done.
  apply list_lookup_insert_eq. eapply lookup_lt_Some; eauto.
Qed.

Lemma attached_child (h : heap) self o os r c oc :
  h !! c = Some oc ->
  attached h self o os r c oc !! c
  = Some (with_bodyRank (r + 1) (with_parent (VRef self) oc)).
Proof.
  intros Hc. unfold attached. apply list_lookup_insert_eq.
  rewrite length_insert. eapply lookup_lt_Some; eauto.
Qed.

Lemma attached_other (h : heap) self o os r c oc l :
  l <> self -> l <> c -> attached h self o os r c oc !! l = h !! l.
Proof.
  intros H1 H2. unfold attached.
  now rewrite !list_lookup_insert_ne by done.
Qed.

Lemma attached_cls (h : heap) self o os r c oc l :
  h !! self = Some o -> h !! c = Some oc ->
  cls <$> attached h self o os r c oc !! l = cls <$> h !! l.
Proof.
  intros Hs Hc. unfold attached.
  pose proof (lookup_lt_Some _ _ _ Hs). pose proof (lookup_lt_Some _ _ _ Hc).
  destruct (decide (l = c)) as [->|Hlc].
  - rewrite list_lookup_insert_eq by now rewrite length_insert.
    now rewrite Hc.
  - rewrite list_lookup_insert_ne by done.
    destruct (decide (l = self)) as [->|Hls].
    + rewrite list_lookup_insert_eq by done. now rewrite Hs.
    + now rewrite list_lookup_insert_ne by done.
Qed.

(** ** [Star.subAssign] and [Belt.subAssign] *)

Lemma Belt_subAssign_eq : Belt_subAssign = Star_subAssign.
Proof. reflexivity. Qed.

Lemma Star_subAssign_run sub (h : heap) st o os r c oc :
  h !! st = Some o -> orbitals o = Some os -> bodyRank o = Some r ->
  h !! c = Some oc -> c <> st ->
  Star_subAssign sub st (VRef c) h =
  match system_parent h o with
  | Some sys =>
      try_except (sub (VRef sys) (VRef c)) (ret tt)
        (attached h st o os r c oc)
  | None => (attached h st o os r c oc, Ok tt)
  end.
Proof.
  intros Hs Hos Hr Hc Hne. unfold Star_subAssign, try_except.
  rewrite (attach_run _ _ _ _ _ _ _ _ Hs Hos Hr Hc Hne).
  pose proof (attached_self h st o os r c oc Hs Hne) as Hs1.
  set (h1 := attached h st o os r c oc) in *.
  unfold system_parent.
  destruct (parent o) as [[|p]|] eqn:Hp.
  - rewrite (bind_ok _ _ _ _ VNone (getattr_ok parent _ _ _ _ Hs1 Hp)).
    reflexivity.
  - rewrite (bind_ok _ _ _ _ (VRef p) (getattr_ok parent _ _ _ _ Hs1 Hp)).
    pose proof (attached_cls h st o os r c oc p Hs Hc) as Hcls.
    fold h1 in Hcls.
    destruct (h !! p) as [op|] eqn:Hop;
      destruct (h1 !! p) as [op1|] eqn:Hop1; simpl in Hcls; try discriminate.
    + injection Hcls as Hcls.
      destruct (decide (cls op = KSystem)) as [Hk|Hk].
      * assert (Hbt : bodyType op1 = Some "System")
          by (unfold bodyType; now rewrite Hcls, Hk).
        rewrite (bind_ok _ _ _ _ _ (getattr_ok bodyType _ _ _ _ Hop1 Hbt)).
        simpl.
        rewrite (bind_ok _ _ _ _ (VRef p) (getattr_ok parent _ _ _ _ Hs1 Hp)).
        reflexivity.
      * unfold bind at 1. unfold getattr, bind, deref. rewrite Hop1. simpl.
        unfold bodyType. rewrite Hcls.
        destruct (cls op); try reflexivity. contradiction.
    + unfold bind at 1. unfold getattr, bind, deref. rewrite Hop1.
      reflexivity.
  - rewrite (bind_raise _ _ _ _ _ (getattr_missing parent _ _ _ Hs1 Hp)).
    reflexivity.
Qed.

(** ** [system()]: the enclosing System *)

Lemma ancestry_System (h : heap) l path sys :
  ancestry h l path (VRef sys) ->
  last path = Some sys /\ exists o, h !! sys = Some o /\ cls o = KSystem.
Proof.
  remember (VRef sys) as r eqn:Hr.
  induction 1 as [l o Hl Hk|l o Hl Hk Hp|l o p path r Hl Hk Hp Hanc IH].
  - injection Hr as ->. eauto.
  - discriminate.
  - destruct (IH Hr) as [Hlast Hsys]. split; [|exact Hsys].
    destruct path as [|a path]; [discriminate|]. exact Hlast.
Qed.

Lemma ancestry_None (h : heap) l path :
  ancestry h l path VNone ->
  Forall (fun a => exists o, h !! a = Some o /\ cls o <> KSystem) path.
Proof.
  remember VNone as r eqn:Hr.
  induction 1 as [l o Hl Hk|l o Hl Hk Hp|l o p path r Hl Hk Hp Hanc IH].
  - discriminate.
  - repeat constructor. eauto.
  - constructor; eauto.
Qed.

Lemma ancestry_of_System (h : heap) l path r o :
  ancestry h l path r -> h !! l = Some o -> cls o = KSystem -> r = VRef l.
Proof.
  intros Hanc Hl Hk. inversion Hanc; subst; try reflexivity; congruence.
Qed.

(** C7, as stated, fails where Systems are nested: the planet (2) descends
    from the root System (0) through the System (1), and [system()] on it
    returns the System (1), as does [system()] on the System (1) itself;
    the root is returned only for the root. *)
Lemma system_returns_nearest_not_root :
  exists sol inner p,
    nested_heap !! 0 = Some sol /\ cls sol = KSystem /\
    parent sol = Some VNone /\
    nested_heap !! 1 = Some inner /\ cls inner = KSystem /\
    parent inner = Some (VRef 0) /\
    nested_heap !! 2 = Some p /\ cls p = KPlanet /\
    parent p = Some (VRef 1) /\
    call_system 10 (VRef 2) nested_heap = (nested_heap, Ok (VRef 1)) /\
    call_system 10 (VRef 1) nested_heap = (nested_heap, Ok (VRef 1)) /\
    call_system 10 (VRef 0) nested_heap = (nested_heap, Ok (VRef 0)).
Proof.
  eexists _, _, _. repeat split; reflexivity.
Qed.

(** C7, amended. [system()] on a node whose parent chain is [path]: on a
    [System] it returns that [System] itself; on any other node it returns
    the nearest [System] above it, the first one met along the chain (the
    last of [path], every object before it not being a [System]), the same
    object for every node whose chain reaches it; and it returns [None]
    when the chain ends without meeting a [System]. *)
Theorem system_returns_enclosing_System (h : heap) l path r d :
  ancestry h l path r -> length path <= d ->
  call_system d (VRef l) h = (h, Ok r) /\
  (forall o, h !! l = Some o -> cls o = KSystem -> r = VRef l) /\
  (forall sys, r = VRef sys ->
     last path = Some sys /\
     exists o, h !! sys = Some o /\ cls o = KSystem) /\
  (r = VNone ->
     Forall (fun a => exists o, h !! a = Some o /\ cls o <> KSystem) path).
Proof.
  intros Hanc Hd. split; [|split; [|split]].
  - now apply (call_system_ancestry h l path r).
  - intros o Hl Hk. eapply ancestry_of_System; eauto.
  - intros sys ->. eapply ancestry_System; eauto.
  - intros ->. eapply ancestry_None; eauto.
Qed.

Lemma sample_ancestry_Luna :
  ancestry sample_heap 3 [3; 2; 1; 0] (VRef 0).
Proof.
  eapply anc_step; [reflexivity|discriminate|reflexivity|].
  eapply anc_step; [reflexivity|discriminate|reflexivity|].
  eapply anc_step; [reflexivity|discriminate|reflexivity|].
  eapply anc_system; reflexivity.
Defined.

Lemma system_returns_enclosing_System_witness :
  call_system 4 (VRef 3) sample_heap = (sample_heap, Ok (VRef 0)) /\
  call_system 3 (VRef 2) sample_heap = (sample_heap, Ok (VRef 0)) /\
  call_system 1 (VRef 0) sample_heap = (sample_heap, Ok (VRef 0)) /\
  call_system 1 (VRef 6) sample_heap = (sample_heap, Ok VNone).
Proof.
  split; [|split; [|split]].
  - apply (system_returns_enclosing_System sample_heap 3 [3; 2; 1; 0]
             (VRef 0) 4 sample_ancestry_Luna).
    simpl. lia.
  - refine (proj1 (system_returns_enclosing_System sample_heap 2 [2; 1; 0]
             (VRef 0) 3 _ _)); [|simpl; lia].
    eapply anc_step; [reflexivity|discriminate|reflexivity|].
    eapply anc_step; [reflexivity|discriminate|reflexivity|].
    eapply anc_system; reflexivity.
  - refine (proj1 (system_returns_enclosing_System sample_heap 0 [0]
             (VRef 0) 1 _ _)); [|simpl; lia].
    eapply anc_system; reflexivity.
  - refine (proj1 (system_returns_enclosing_System sample_heap 6 [6]
             VNone 1 _ _)); [|simpl; lia].
    eapply anc_orphan; [reflexivity|discriminate|right; reflexivity].
Defined.

(** C9. [system()] is idempotent and free of side effects: a call leaves
    every object of the store as it was, and a second call in a row gives
    the result of the first. *)
Theorem system_idempotent_pure d v (h : heap) :
  fst (call_system d v h) = h /\
  call_system d v (fst (call_system d v h)) = call_system d v h.
Proof.
  pose proof (call_system_frame d v h) as Hf. split; [exact Hf|].
  now rewrite Hf.
Qed.

(** ** [System.subAssign]: heads and bodies *)

(** C1. [System.subAssign] on a child of equal rank appends it to
    [heads], on a child of greater rank appends it to [bodies], on a child
    of smaller rank changes nothing; the child's [bodyRank] stays as it
    was in every case. *)
Theorem System_subAssign_classifies d (h : heap) sys oS rs hs bs c oc rc :
  h !! sys = Some oS -> cls oS = KSystem ->
  bodyRank oS = Some rs -> heads oS = Some hs -> bodies oS = Some bs ->
  h !! c = Some oc -> bodyRank oc = Some rc ->
  exists h',
    call_subAssign (S d) (VRef sys) (VRef c) h = (h', Ok tt) /\
    ((rc = rs)%Z -> h' = <[sys := with_heads (hs ++ [VRef c]) oS]> h) /\
    ((rc > rs)%Z -> h' = <[sys := with_bodies (bs ++ [VRef c]) oS]> h) /\
    ((rc < rs)%Z -> h' = h) /\
    (exists oc', h' !! c = Some oc' /\ bodyRank oc' = Some rc).
Proof.
  intros HS Hk Hrs Hhs Hbs Hc Hrc.
  rewrite (call_subAssign_System d _ _ _ _ HS Hk).
  pose proof (System_subAssign_core sys (VRef c) h) as Hcore.
  rewrite (System_subAssign_run _ _ _ _ _ _ _ HS Hrs Hc Hrc) in *.
  unfold try_except in *.
  assert (Hrank : forall h' : heap, core <$> h' = core <$> h ->
            exists oc', h' !! c = Some oc' /\ bodyRank oc' = Some rc).
  { intros h' Hh'. destruct (core_lookup _ _ _ _ Hh' Hc) as (oc' & ? & Hco).
    exists oc'. split; [done|]. unfold core in Hco. congruence. }
  destruct (Z.gtb_spec rc rs) as [Hgt|Hle].
  - rewrite (append_to_ok _ _ _ _ _ _ (VRef c) HS Hbs) in *.
    eexists. split; [reflexivity|]. simpl in Hcore.
    repeat split; try (intros; lia); auto.
  - destruct (Z.eqb_spec rc rs) as [Heq|Hneq].
    + rewrite (append_to_ok _ _ _ _ _ _ (VRef c) HS Hhs) in *.
      eexists. split; [reflexivity|]. simpl in Hcore.
      repeat split; try (intros; lia); auto.
    + exists h. split; [reflexivity|].
      repeat split; try (intros; lia); eauto.
Qed.

Lemma System_subAssign_classifies_witness :
  exists h',
    call_subAssign 1 (VRef 0) (VRef 6) sample_heap = (h', Ok tt) /\
    h' !! 0 = Some (with_bodies [VRef 2; VRef 3; VRef 4; VRef 5; VRef 6]
                      (mkObj KSystem (Some "Sol") (Some VNone) (Some 2%Z)
                         None (Some [VRef 1])
                         (Some [VRef 2; VRef 3; VRef 4; VRef 5]) None)).
Proof.
  destruct (System_subAssign_classifies 0 sample_heap 0
              (mkObj KSystem (Some "Sol") (Some VNone) (Some 2%Z) None
                 (Some [VRef 1]) (Some [VRef 2; VRef 3; VRef 4; VRef 5]) None)
              2%Z [VRef 1] [VRef 2; VRef 3; VRef 4; VRef 5] 6
              (mkObj KPlanet (Some "Rogue") (Some VNone) (Some 3%Z)
                 (Some []) None None None) 3%Z
              eq_refl eq_refl eq_refl eq_refl eq_refl eq_refl eq_refl)
    as (h' & Hrun & _ & Hgt & _ & _).
  exists h'. split; [exact Hrun|].
  rewrite (Hgt eq_refl). reflexivity.
Defined.

(** ** Constructors: the new instance *)

Lemma lookup_new (h : heap) o : (h ++ [o]) !! length h = Some o.
Proof. now rewrite lookup_app_r, Nat.sub_diag by lia. Qed.

Lemma insert_new (h : heap) o o' : <[length h := o']> (h ++ [o]) = h ++ [o'].
Proof.
  replace (length h) with (length h + 0) at 1 by lia.
  now rewrite insert_app_r.
Qed.

Lemma setattr_new upd (h : heap) o :
  setattr upd (VRef (length h)) (h ++ [o]) = (h ++ [upd o], Ok tt).
Proof. rewrite (setattr_ok _ _ _ _ (lookup_new h o)). now rewrite insert_new. Qed.

Lemma bind_assoc {A B C} (m : M A) (k : A -> M B) (k' : B -> M C) (h : heap) :
  bind (bind m k) k' h = bind m (fun a => bind (k a) k') h.
Proof. unfold bind. destruct (m h) as [h1 [a|e]]; reflexivity. Qed.

Lemma alloc_run k (h : heap) : alloc k h = (h ++ [blank k], Ok (length h)).
Proof. reflexivity. Qed.

Ltac init_step :=
  rewrite ?bind_assoc;
  rewrite (bind_ok _ _ _ _ _ (setattr_new _ _ _)); cbv beta.

Lemma construct_run k d nm par (h : heap) :
  construct k d nm par h =
  (assign_to_parent d (length h) ;; finish k (length h) ;; ret (length h))
    (h ++ [fresh k nm par]).
Proof.
  destruct k; unfold construct, Planet_new, Star_new, System_new, Belt_new,
    Minor_new, Planet_init, Star_init, System_init, Belt_init,
    Minor_init, Body_init;
    rewrite (bind_ok _ _ _ _ _ (alloc_run _ _)); cbv beta.
  - do 5 init_step. reflexivity.
  - do 4 init_step. reflexivity.
  - do 5 init_step. reflexivity.
  - do 4 init_step. rewrite ?bind_assoc. reflexivity.
  - do 3 init_step. reflexivity.
Qed.

Lemma assign_to_parent_run d self o par (h : heap) :
  h !! self = Some o -> parent o = Some par ->
  assign_to_parent d self h
  = try_except (call_subAssign d par (VRef self)) (ret tt) h.
Proof.
  intros H Hp. unfold assign_to_parent, try_except.
  now rewrite (bind_ok _ _ _ _ _ (getattr_ok parent _ _ _ _ H Hp)).
Qed.

Lemma parent_fresh k nm par : parent (fresh k nm par) = Some par.
Proof. now destruct k. Qed.

(** ** A Star built under a System *)

(** C3. [Star(nm, sys)] for a [System] of rank 2: when the constructor
    reaches [self.parent.subAssign(self)] the Star already carries
    [bodyRank] 2; at the end the Star has rank 2, the rank of the System,
    which is unchanged, and the Star is the new last element of [heads]
    while [bodies] is as before and does not contain it. *)
Theorem Star_under_System_is_head d (h : heap) sys oS hs bs nm :
  h !! sys = Some oS -> cls oS = KSystem -> bodyRank oS = Some 2%Z ->
  heads oS = Some hs -> bodies oS = Some bs -> Forall (allocated h) bs ->
  exists h' oS',
    Star_new (S d) nm (VRef sys) h = (h', Ok (length h)) /\
    Star_new (S d) nm (VRef sys) h
    = (assign_to_parent (S d) (length h) ;; ret (length h))
        (h ++ [mkObj KStar (Some nm) (Some (VRef sys)) (Some 2%Z) (Some [])
                 None None None]) /\
    h' !! length h
    = Some (mkObj KStar (Some nm) (Some (VRef sys)) (Some 2%Z) (Some [])
              None None None) /\
    h' !! sys = Some oS' /\
    bodyRank oS' = Some 2%Z /\
    heads oS' = Some (hs ++ [VRef (length h)]) /\
    bodies oS' = Some bs /\
    VRef (length h) ∈ hs ++ [VRef (length h)] /\
    VRef (length h) ∉ bs.
Proof.
  intros HS Hk Hrs Hhs Hbs Hall.
  pose proof (lookup_lt_Some _ _ _ HS) as Hlt.
  change (Star_new (S d) nm (VRef sys) h)
    with (construct CStar (S d) nm (VRef sys) h).
  rewrite construct_run. simpl fresh. simpl finish.
  set (ost := mkObj KStar (Some nm) (Some (VRef sys)) (Some 2%Z) (Some [])
                None None None).
  set (h0 := h ++ [ost]).
  assert (Hst0 : h0 !! length h = Some ost) by apply lookup_new.
  assert (HS0 : h0 !! sys = Some oS) by now apply lookup_app_l_Some.
  exists (<[sys := with_heads (hs ++ [VRef (length h)]) oS]> h0),
    (with_heads (hs ++ [VRef (length h)]) oS).
  assert (Hrun : assign_to_parent (S d) (length h) h0
                 = (<[sys := with_heads (hs ++ [VRef (length h)]) oS]> h0,
                    Ok tt)).
  { rewrite (assign_to_parent_run _ _ _ _ _ Hst0 eq_refl).
    unfold try_except at 1.
    rewrite (call_subAssign_System d _ _ _ _ HS0 Hk).
    rewrite (System_subAssign_run _ _ _ _ _ _ _ HS0 Hrs Hst0 eq_refl).
    simpl. unfold try_except.
    now rewrite (append_to_ok _ _ _ _ _ _ _ HS0 Hhs). }
  split; [|split; [|split; [|split; [|split; [|split; [|split; [|split]]]]]]].
  - unfold bind at 1. rewrite Hrun. reflexivity.
  - unfold bind at 1 3. rewrite Hrun. reflexivity.
  - rewrite list_lookup_insert_ne by lia. exact Hst0.
  - apply list_lookup_insert_eq. unfold h0. rewrite length_app. lia.
  - exact Hrs.
  - reflexivity.
  - exact Hbs.
  - apply elem_of_app. right. apply list_elem_of_singleton. reflexivity.
  - intros Hin. rewrite Forall_forall in Hall. specialize (Hall _ Hin).
    simpl in Hall. lia.
Qed.

Lemma Star_under_System_is_head_witness :
  exists h' oS',
    Star_new 1 "Albireo B" (VRef 0) sample_heap = (h', Ok 7) /\
    h' !! 7 = Some (mkObj KStar (Some "Albireo B") (Some (VRef 0))
                      (Some 2%Z) (Some []) None None None) /\
    h' !! 0 = Some oS' /\
    heads oS' = Some [VRef 1; VRef 7] /\
    bodies oS' = Some [VRef 2; VRef 3; VRef 4; VRef 5].
Proof.
  destruct (Star_under_System_is_head 0 sample_heap 0
              (mkObj KSystem (Some "Sol") (Some VNone) (Some 2%Z) None
                 (Some [VRef 1]) (Some [VRef 2; VRef 3; VRef 4; VRef 5]) None)
              [VRef 1] [VRef 2; VRef 3; VRef 4; VRef 5] "Albireo B"
              eq_refl eq_refl eq_refl eq_refl eq_refl)
    as (h' & oS' & Hrun & _ & Hst & HS & _ & Hh & Hb & _ & _).
  { repeat constructor; simpl; lia. }
  exists h', oS'. repeat split; assumption.
Defined.

(** ** [Star.subAssign]: local list and forwarding *)

Lemma call_subAssign_Star d st o c (h : heap) :
  h !! st = Some o -> cls o = KStar ->
  call_subAssign (S d) (VRef st) c h
  = Star_subAssign (call_subAssign d) st c h.
Proof.
  intros H Hk. simpl. unfold bind at 1. rewrite (deref_ok _ _ _ H). simpl.
  now rewrite Hk.
Qed.

Lemma call_subAssign_Belt d b o c (h : heap) :
  h !! b = Some o -> cls o = KBelt ->
  call_subAssign (S d) (VRef b) c h
  = Belt_subAssign (call_subAssign d) b c h.
Proof.
  intros H Hk. simpl. unfold bind at 1. rewrite (deref_ok _ _ _ H). simpl.
  now rewrite Hk.
Qed.

Lemma call_subAssign_Body d b o c (h : heap) :
  h !! b = Some o -> cls o = KBody \/ cls o = KPlanet ->
  call_subAssign (S d) (VRef b) c h
  = Body_subAssign (call_system d) (call_subAssign d) b c h.
Proof.
  intros H Hk. simpl. unfold bind at 1. rewrite (deref_ok _ _ _ H). simpl.
  now destruct Hk as [-> | ->].
Qed.

Lemma call_subAssign_Minor d b o c (h : heap) :
  h !! b = Some o -> cls o = KMinor ->
  call_subAssign (S d) (VRef b) c h
  = Minor_subAssign (call_system d) (call_subAssign d) b c h.
Proof.
  intros H Hk. simpl. unfold bind at 1. rewrite (deref_ok _ _ _ H). simpl.
  now rewrite Hk.
Qed.

(** [Minor.subAssign] stops at [self.append], which does not exist: the
    call changes nothing, whatever the Minor and the child. *)
Lemma Minor_subAssign_noop d m o c (h : heap) :
  h !! m = Some o -> cls o = KMinor ->
  call_subAssign (S d) (VRef m) c h = (h, Ok tt).
Proof.
  intros H Hk. rewrite (call_subAssign_Minor _ _ _ _ _ H Hk).
  unfold Minor_subAssign, try_except, method_append.
  now rewrite (bind_raise _ _ _ _ _ (getattr_missing _ _ _ _ H eq_refl)).
Qed.

Lemma try_except_ok {A} (m handler : M A) (h h' : heap) a :
  m h = (h', Ok a) -> try_except m handler h = (h', Ok a).
Proof. intros H. unfold try_except. now rewrite H. Qed.

Lemma System_subAssign_guarded S c (h : heap) :
  try_except (System_subAssign S c) (ret tt) h = System_subAssign S c h.
Proof.
  destruct (System_subAssign_shape S c h) as (h' & Hrun & _).
  rewrite Hrun. now apply try_except_ok.
Qed.

(** The three outcomes of [System.subAssign] for a child of known rank. *)
Lemma System_subAssign_by_rank sys oS rs c oc rc (h : heap) :
  h !! sys = Some oS -> bodyRank oS = Some rs ->
  h !! c = Some oc -> bodyRank oc = Some rc ->
  (forall bs, bodies oS = Some bs -> (rc > rs)%Z ->
     System_subAssign sys (VRef c) h
     = (<[sys := with_bodies (bs ++ [VRef c]) oS]> h, Ok tt)) /\
  (forall hs, heads oS = Some hs -> (rc = rs)%Z ->
     System_subAssign sys (VRef c) h
     = (<[sys := with_heads (hs ++ [VRef c]) oS]> h, Ok tt)) /\
  ((rc < rs)%Z -> System_subAssign sys (VRef c) h = (h, Ok tt)).
Proof.
  intros HS Hrs Hc Hrc.
  rewrite (System_subAssign_run _ _ _ _ _ _ _ HS Hrs Hc Hrc).
  unfold try_except.
  destruct (Z.gtb_spec rc rs) as [Hgt|Hle];
    [|destruct (Z.eqb_spec rc rs) as [Heq|Hneq]];
    (split; [|split]); try (intros; lia).
  - intros bs Hbs _. now rewrite (append_to_ok _ _ _ _ _ _ _ HS Hbs).
  - intros hs Hhs _. now rewrite (append_to_ok _ _ _ _ _ _ _ HS Hhs).
  - reflexivity.
Qed.

Lemma system_parent_Some (h : heap) o sys :
  system_parent h o = Some sys ->
  parent o = Some (VRef sys) /\ exists oS, h !! sys = Some oS /\ cls oS = KSystem.
Proof.
  unfold system_parent. destruct (parent o) as [[|p]|]; try discriminate.
  destruct (h !! p) as [op|] eqn:Hp; [|discriminate].
  destruct (decide (cls op = KSystem)); [|discriminate].
  intros [= <-]. eauto.
Qed.

(** Forwarding from a [Star] or a [Belt]: the call on the parent, when the
    parent is a [System], is a call of [System.subAssign]. *)
Lemma forward_to_parent d (h : heap) st o os r c oc :
  h !! st = Some o -> orbitals o = Some os -> bodyRank o = Some r ->
  h !! c = Some oc -> c <> st ->
  Star_subAssign (call_subAssign (S d)) st (VRef c) h =
  match system_parent h o with
  | Some sys => System_subAssign sys (VRef c) (attached h st o os r c oc)
  | None => (attached h st o os r c oc, Ok tt)
  end.
Proof.
  intros Hs Hos Hr Hc Hne.
  rewrite (Star_subAssign_run _ _ _ _ _ _ _ _ Hs Hos Hr Hc Hne).
  destruct (system_parent h o) as [sys|] eqn:Hsp; [|reflexivity].
  apply system_parent_Some in Hsp as (_ & oS & HS & Hk).
  pose proof (attached_cls h st o os r c oc sys Hs Hc) as Hcls.
  rewrite HS in Hcls.
  destruct (attached h st o os r c oc !! sys) as [oS1|] eqn:HS1;
    [|discriminate].
  simpl in Hcls. injection Hcls as Hcls.
  unfold try_except at 1.
  rewrite (call_subAssign_System d _ _ _ _ HS1 (eq_trans Hcls Hk)).
  apply System_subAssign_guarded.
Qed.

(** C4, as stated, fails: the Star (1) has the System (0) as parent, yet
    after [subAssign] the child (2) is in the Star's [orbitals] and in
    neither list of the System, whose rank 4 exceeds the child's new
    rank 3. *)
Lemma Star_forwarding_without_dual_membership :
  exists h' st sys,
    call_subAssign 10 (VRef 1) (VRef 2) high_rank_heap = (h', Ok tt) /\
    high_rank_heap !! 1 = Some st /\ cls st = KStar /\
    parent st = Some (VRef 0) /\
    high_rank_heap !! 0 = Some sys /\ cls sys = KSystem /\
    orbitals <$> h' !! 1 = Some (Some [VRef 2]) /\
    bodyRank <$> h' !! 2 = Some (Some 3%Z) /\
    bodies <$> h' !! 0 = Some (Some []) /\
    heads <$> h' !! 0 = Some (Some []).
Proof.
  eexists _, _, _. repeat split; try reflexivity.
Qed.

(** C4, amended. For a [Star] [st] and a child [c] other than [st],
    [st.subAssign(c)] appends [c] to [st.orbitals], sets [c.parent = st]
    and [c.bodyRank = st.bodyRank + 1]; then, exactly when [st.parent]
    exists and is a [System], it calls [System.subAssign] on it with the
    child as just updated: that puts [c] into the System's [bodies] (dual
    membership) when the new rank exceeds the System's, into [heads] when
    the ranks are equal, and nowhere when it is smaller; when [st.parent]
    is absent or not a [System] nothing else happens, and no exception
    surfaces. *)
Theorem Star_subAssign_forwards d (h : heap) st o os r c oc :
  h !! st = Some o -> cls o = KStar ->
  orbitals o = Some os -> bodyRank o = Some r ->
  h !! c = Some oc -> c <> st ->
  let h1 := attached h st o os r c oc in
  h1 !! st = Some (with_orbitals (os ++ [VRef c]) o) /\
  h1 !! c = Some (with_bodyRank (r + 1) (with_parent (VRef st) oc)) /\
  (forall l, l <> st -> l <> c -> h1 !! l = h !! l) /\
  (system_parent h o = None ->
     call_subAssign (S (S d)) (VRef st) (VRef c) h = (h1, Ok tt)) /\
  (forall sys, system_parent h o = Some sys ->
     call_subAssign (S (S d)) (VRef st) (VRef c) h
     = System_subAssign sys (VRef c) h1 /\
     forall oS rs, h1 !! sys = Some oS -> bodyRank oS = Some rs ->
       (forall bs, bodies oS = Some bs -> (r + 1 > rs)%Z ->
          call_subAssign (S (S d)) (VRef st) (VRef c) h
          = (<[sys := with_bodies (bs ++ [VRef c]) oS]> h1, Ok tt)) /\
       (forall hs, heads oS = Some hs -> (r + 1 = rs)%Z ->
          call_subAssign (S (S d)) (VRef st) (VRef c) h
          = (<[sys := with_heads (hs ++ [VRef c]) oS]> h1, Ok tt)) /\
       ((r + 1 < rs)%Z ->
          call_subAssign (S (S d)) (VRef st) (VRef c) h = (h1, Ok tt))).
Proof.
  intros Hs Hk Hos Hr Hc Hne h1.
  pose proof (attached_self h st o os r c oc Hs Hne) as Hs1.
  pose proof (attached_child h st o os r c oc Hc) as Hc1.
  fold h1 in Hs1, Hc1.
  rewrite (call_subAssign_Star _ _ _ _ _ Hs Hk).
  rewrite (forward_to_parent _ _ _ _ _ _ _ _ Hs Hos Hr Hc Hne). fold h1.
  split; [exact Hs1|]. split; [exact Hc1|].
  split; [intros l H1 H2; now apply attached_other|].
  split; [now intros ->|].
  intros sys ->. split; [reflexivity|].
  intros oS rs HS1 Hrs.
  exact (System_subAssign_by_rank sys oS rs c _ (r + 1)%Z h1 HS1 Hrs Hc1
           eq_refl).
Qed.

Lemma Star_subAssign_forwards_witness :
  call_subAssign 2 (VRef 1) (VRef 6) sample_heap
  = (<[0 := with_bodies [VRef 2; VRef 3; VRef 4; VRef 5; VRef 6]
             (mkObj KSystem (Some "Sol") (Some VNone) (Some 2%Z) None
                (Some [VRef 1]) (Some [VRef 2; VRef 3; VRef 4; VRef 5]) None)]>
       (attached sample_heap 1
          (mkObj KStar (Some "Sun") (Some (VRef 0)) (Some 2%Z)
             (Some [VRef 2]) None None None)
          [VRef 2] 2 6
          (mkObj KPlanet (Some "Rogue") (Some VNone) (Some 3%Z) (Some [])
             None None None)),
     Ok tt).
Proof.
  pose proof (Star_subAssign_forwards 0 sample_heap 1
                (mkObj KStar (Some "Sun") (Some (VRef 0)) (Some 2%Z)
                   (Some [VRef 2]) None None None)
                [VRef 2] 2 6
                (mkObj KPlanet (Some "Rogue") (Some VNone) (Some 3%Z)
                   (Some []) None None None)
                eq_refl eq_refl eq_refl eq_refl eq_refl) as H.
  destruct H as (_ & _ & _ & _ & Hfw); [lia|].
  destruct (Hfw 0 eq_refl) as (_ & Hrank).
  destruct (Hrank (mkObj KSystem (Some "Sol") (Some VNone) (Some 2%Z) None
                     (Some [VRef 1]) (Some [VRef 2; VRef 3; VRef 4; VRef 5])
                     None) 2%Z eq_refl eq_refl) as (Hb & _ & _).
  apply (Hb [VRef 2; VRef 3; VRef 4; VRef 5] eq_refl). lia.
Defined.

(** ** [Body.subAssign] and [Belt.subAssign]: which System receives the child *)

Lemma attached_links (h : heap) st o os r c oc a oa :
  h !! st = Some o -> a <> c -> h !! a = Some oa ->
  exists oa', attached h st o os r c oc !! a = Some oa' /\
    cls oa' = cls oa /\ parent oa' = parent oa.
Proof.
  intros Hs Hac Ha. unfold attached.
  rewrite list_lookup_insert_ne by done.
  destruct (decide (a = st)) as [->|Has].
  - rewrite list_lookup_insert_eq by (eapply lookup_lt_Some; eauto).
    eexists. split; [reflexivity|]. rewrite Hs in Ha. injection Ha as <-.
    split; reflexivity.
  - rewrite list_lookup_insert_ne by done. eauto.
Qed.

Lemma ancestry_attached (h : heap) st o os r c oc l path v :
  ancestry h l path v -> h !! st = Some o -> c ∉ path ->
  ancestry (attached h st o os r c oc) l path v.
Proof.
  intros Hanc Hs.
  induction Hanc as [l ol Hl Hk|l ol Hl Hk Hp|l ol p path v Hl Hk Hp Hanc IH];
    intros Hc; apply not_elem_of_cons in Hc as [Hcl Hc];
    destruct (attached_links h st o os r c oc l ol Hs) as (o' & H' & Hk' & Hp');
    [congruence|done| |congruence|done| |congruence|done|].
  - eapply anc_system; eauto. congruence.
  - eapply anc_orphan; eauto; congruence.
  - eapply anc_step; eauto; congruence.
Qed.

Lemma ancestry_head (h : heap) l path v :
  ancestry h l path v -> exists rest, path = l :: rest.
Proof. destruct 1; eauto. Qed.

Lemma Body_subAssign_run d (h : heap) b o os r c oc path sys :
  h !! b = Some o -> orbitals o = Some os -> bodyRank o = Some r ->
  h !! c = Some oc ->
  ancestry h b path (VRef sys) -> c ∉ path -> length path <= d ->
  Body_subAssign (call_system d) (call_subAssign d) b (VRef c) h
  = System_subAssign sys (VRef c) (attached h b o os r c oc).
Proof.
  intros Hb Hos Hr Hc Hanc Hnin Hd.
  destruct (ancestry_head _ _ _ _ Hanc) as (rest & ->).
  assert (Hne : c <> b) by (apply not_elem_of_cons in Hnin; tauto).
  unfold Body_subAssign.
  unfold try_except at 1.
  rewrite (attach_run _ _ _ _ _ _ _ _ Hb Hos Hr Hc Hne).
  pose proof (ancestry_attached h b o os r c oc _ _ _ Hanc Hb Hnin) as Hanc1.
  set (h1 := attached h b o os r c oc) in *.
  pose proof (call_system_ancestry _ _ _ _ Hanc1 d Hd) as Hsys.
  unfold bind at 1. rewrite Hsys. cbv beta iota.
  change (is_None (VRef sys)) with false. cbv iota.
  unfold bind at 1. rewrite Hsys. cbv beta iota.
  destruct (ancestry_System _ _ _ _ Hanc1) as (_ & oS & HS & Hk).
  destruct d as [|d]; [simpl in Hd; lia|].
  rewrite (call_subAssign_System d _ _ _ _ HS Hk).
  apply System_subAssign_guarded.
Qed.

(** C2, as stated, fails for [Belt]: [system()] of the belt (2) finds the
    System (0) two levels up, yet [subAssign] on the belt leaves the
    System's lists as they were; the child (3) is in the belt's
    [orbitals] only. *)
Lemma Belt_does_not_forward_through_ancestors :
  exists h' b,
    ring_heap !! 2 = Some b /\ cls b = KBelt /\
    call_system 10 (VRef 2) ring_heap = (ring_heap, Ok (VRef 0)) /\
    call_subAssign 10 (VRef 2) (VRef 3) ring_heap = (h', Ok tt) /\
    orbitals <$> h' !! 2 = Some (Some [VRef 3]) /\
    h' !! 0 = ring_heap !! 0 /\
    bodies <$> h' !! 0 = Some (Some [VRef 1; VRef 2]) /\
    heads <$> h' !! 0 = Some (Some []).
Proof.
  eexists _, _. repeat split; try reflexivity.
Qed.

(** C2, amended. A generic [Body] (or [Planet]) whose ancestor chain leads
    to a [System], at whatever depth, forwards a child that is not on that
    chain to that [System]: after the three local assignments it calls
    [System.subAssign], which puts the child into [bodies] when its new
    rank exceeds the System's, into [heads] when the ranks are equal, and
    nowhere when it is smaller.  A [Belt] forwards in the same way only to
    its immediate parent, when that is a [System]; otherwise it stops
    after the three local assignments. *)
Theorem Body_forwards_to_enclosing_System (h : heap) b o os r c oc :
  h !! b = Some o -> orbitals o = Some os -> bodyRank o = Some r ->
  h !! c = Some oc -> c <> b ->
  let h1 := attached h b o os r c oc in
  (cls o = KBody \/ cls o = KPlanet ->
   forall path sys d,
     ancestry h b path (VRef sys) -> c ∉ path -> length path <= d ->
     call_subAssign (S d) (VRef b) (VRef c) h
     = System_subAssign sys (VRef c) h1 /\
     forall oS rs, h1 !! sys = Some oS -> bodyRank oS = Some rs ->
       (forall bs, bodies oS = Some bs -> (r + 1 > rs)%Z ->
          call_subAssign (S d) (VRef b) (VRef c) h
          = (<[sys := with_bodies (bs ++ [VRef c]) oS]> h1, Ok tt)) /\
       (forall hs, heads oS = Some hs -> (r + 1 = rs)%Z ->
          call_subAssign (S d) (VRef b) (VRef c) h
          = (<[sys := with_heads (hs ++ [VRef c]) oS]> h1, Ok tt)) /\
       ((r + 1 < rs)%Z ->
          call_subAssign (S d) (VRef b) (VRef c) h = (h1, Ok tt))) /\
  (cls o = KBelt ->
   forall d,
     (system_parent h o = None ->
        call_subAssign (S (S d)) (VRef b) (VRef c) h = (h1, Ok tt)) /\
     (forall sys, system_parent h o = Some sys ->
        call_subAssign (S (S d)) (VRef b) (VRef c) h
        = System_subAssign sys (VRef c) h1 /\
        forall oS rs bs, h1 !! sys = Some oS -> bodyRank oS = Some rs ->
          bodies oS = Some bs -> (r + 1 > rs)%Z ->
          call_subAssign (S (S d)) (VRef b) (VRef c) h
          = (<[sys := with_bodies (bs ++ [VRef c]) oS]> h1, Ok tt))).
Proof.
  intros Hb Hos Hr Hc Hne h1.
  pose proof (attached_child h b o os r c oc Hc) as Hc1. fold h1 in Hc1.
  split.
  - intros Hk path sys d Hanc Hnin Hd.
    rewrite (call_subAssign_Body _ _ _ _ _ Hb Hk).
    rewrite (Body_subAssign_run d h b o os r c oc path sys Hb Hos Hr Hc Hanc
               Hnin Hd). fold h1.
    split; [reflexivity|]. intros oS rs HS1 Hrs.
    exact (System_subAssign_by_rank sys oS rs c _ (r + 1)%Z h1 HS1 Hrs Hc1
             eq_refl).
  - intros Hk d.
    rewrite (call_subAssign_Belt _ _ _ _ _ Hb Hk), Belt_subAssign_eq.
    rewrite (forward_to_parent _ _ _ _ _ _ _ _ Hb Hos Hr Hc Hne). fold h1.
    split; [now intros ->|].
    intros sys ->. split; [reflexivity|].
    intros oS rs bs HS1 Hrs Hbs Hgt.
    destruct (System_subAssign_by_rank sys oS rs c _ (r + 1)%Z h1 HS1 Hrs Hc1
                eq_refl) as (Hbod & _ & _).
    now apply Hbod.
Qed.

Lemma Body_forwards_to_enclosing_System_witness :
  call_subAssign 4 (VRef 2) (VRef 6) sample_heap
  = (<[0 := with_bodies [VRef 2; VRef 3; VRef 4; VRef 5; VRef 6]
             (mkObj KSystem (Some "Sol") (Some VNone) (Some 2%Z) None
                (Some [VRef 1]) (Some [VRef 2; VRef 3; VRef 4; VRef 5]) None)]>
       (attached sample_heap 2
          (mkObj KPlanet (Some "Earth") (Some (VRef 1)) (Some 3%Z)
             (Some [VRef 3]) None None None)
          [VRef 3] 3 6
          (mkObj KPlanet (Some "Rogue") (Some VNone) (Some 3%Z) (Some [])
             None None None)),
     Ok tt).
Proof.
  pose proof (Body_forwards_to_enclosing_System sample_heap 2
                (mkObj KPlanet (Some "Earth") (Some (VRef 1)) (Some 3%Z)
                   (Some [VRef 3]) None None None)
                [VRef 3] 3 6
                (mkObj KPlanet (Some "Rogue") (Some VNone) (Some 3%Z)
                   (Some []) None None None)
                eq_refl eq_refl eq_refl eq_refl) as H.
  destruct H as (Hbody & _); [lia|].
  destruct (Hbody (or_intror eq_refl) [2; 1; 0] 0 3) as (_ & Hrank).
  - eapply anc_step; [reflexivity|discriminate|reflexivity|].
    eapply anc_step; [reflexivity|discriminate|reflexivity|].
    eapply anc_system; reflexivity.
  - intros Hin. repeat (apply elem_of_cons in Hin as [Hin|Hin];
                        [discriminate|]).
    now apply elem_of_nil in Hin.
  - simpl. lia.
  - destruct (Hrank (mkObj KSystem (Some "Sol") (Some VNone) (Some 2%Z) None
                       (Some [VRef 1]) (Some [VRef 2; VRef 3; VRef 4; VRef 5])
                       None) 2%Z eq_refl eq_refl) as (Hb & _ & _).
    apply (Hb [VRef 2; VRef 3; VRef 4; VRef 5] eq_refl). lia.
Defined.

(** ** What the assignment step leaves of ranks and parents *)

Lemma call_subAssign_System_core d sys oS c (h : heap) :
  h !! sys = Some oS -> cls oS = KSystem ->
  core <$> fst (call_subAssign d (VRef sys) c h) = core <$> h.
Proof.
  intros HS Hk. destruct d as [|d].
  - simpl. unfold bind. now rewrite (deref_ok _ _ _ HS).
  - rewrite (call_subAssign_System d _ _ _ _ HS Hk).
    apply System_subAssign_core.
Qed.

Lemma try_except_core {A} (m : M A) (a : A) (h h0 : heap) :
  core <$> fst (m h) = core <$> h0 ->
  core <$> fst (try_except m (ret a) h) = core <$> h0.
Proof.
  unfold try_except. destruct (m h) as [h' [x|[|]]]; simpl; auto.
Qed.

Lemma Star_subAssign_core d (h : heap) st o os r c oc :
  h !! st = Some o -> orbitals o = Some os -> bodyRank o = Some r ->
  h !! c = Some oc -> c <> st ->
  core <$> fst (Star_subAssign (call_subAssign d) st (VRef c) h)
  = core <$> attached h st o os r c oc.
Proof.
  intros Hs Hos Hr Hc Hne.
  rewrite (Star_subAssign_run _ _ _ _ _ _ _ _ Hs Hos Hr Hc Hne).
  destruct (system_parent h o) as [sys|] eqn:Hsp; [|reflexivity].
  apply system_parent_Some in Hsp as (_ & oS & HS & Hk).
  pose proof (attached_cls h st o os r c oc sys Hs Hc) as Hcls.
  rewrite HS in Hcls.
  destruct (attached h st o os r c oc !! sys) as [oS1|] eqn:HS1;
    [|discriminate].
  simpl in Hcls. injection Hcls as Hcls.
  apply try_except_core.
  eapply call_subAssign_System_core; eauto. congruence.
Qed.

Lemma Body_subAssign_core d (h : heap) b o os r c oc :
  h !! b = Some o -> orbitals o = Some os -> bodyRank o = Some r ->
  h !! c = Some oc -> c <> b ->
  core <$> fst (Body_subAssign (call_system d) (call_subAssign d) b (VRef c) h)
  = core <$> attached h b o os r c oc.
Proof.
  intros Hb Hos Hr Hc Hne. unfold Body_subAssign.
  apply try_except_core.
  rewrite (attach_run _ _ _ _ _ _ _ _ Hb Hos Hr Hc Hne).
  set (h1 := attached h b o os r c oc).
  unfold bind at 1.
  pose proof (call_system_frame d (VRef b) h1) as Hfr.
  destruct (call_system d (VRef b) h1) as [h2 [s|e]] eqn:Hsys;
    simpl in Hfr; subst h2; [|reflexivity].
  destruct s as [|sys]; [reflexivity|].
  change (is_None (VRef sys)) with false. cbv iota.
  unfold bind at 1. rewrite Hsys.
  destruct (call_system_result _ _ _ _ _ Hsys) as (oS & HS & Hk).
  eapply call_subAssign_System_core; eauto.
Qed.

Lemma core_attrs (h h' : heap) :
  core <$> h' = core <$> h -> attrs <$> h' = attrs <$> h.
Proof.
  intros H.
  assert (E : forall l : heap,
             attrs <$> l = (fun x => (x.1.1.1.1.1, x.1.1.1.2, x.1.1.2))
                           <$> (core <$> l)).
  { intros l. rewrite <- list_fmap_compose. reflexivity. }
  now rewrite !E, H.
Qed.

Lemma attrs_insert (h : heap) l o o' :
  h !! l = Some o -> attrs o' = attrs o ->
  attrs <$> <[l := o']> h = attrs <$> h.
Proof.
  intros H Hc. rewrite list_fmap_insert, Hc.
  apply list_insert_id. now rewrite list_lookup_fmap, H.
Qed.

Lemma attrs_lookup (h h' : heap) l o :
  attrs <$> h' = attrs <$> h -> h !! l = Some o ->
  exists o', h' !! l = Some o' /\
    cls o' = cls o /\ parent o' = parent o /\ bodyRank o' = bodyRank o.
Proof.
  intros Hc H.
  assert (Hl : (attrs <$> h') !! l = Some (attrs o))
    by now rewrite Hc, list_lookup_fmap, H.
  rewrite list_lookup_fmap in Hl.
  destruct (h' !! l) as [o'|]; [|discriminate]. simpl in Hl.
  exists o'. unfold attrs in Hl. split; [done|].
  repeat split; congruence.
Qed.

Lemma setattr_bodySubtype_attrs s v (h : heap) :
  attrs <$> fst (setattr (with_bodySubtype s) v h) = attrs <$> h.
Proof.
  unfold setattr, bind, deref. destruct v as [|l]; [reflexivity|].
  destruct (h !! l) as [o|] eqn:Hl; [|reflexivity]. simpl.
  now apply (attrs_insert _ _ o).
Qed.

(** The end of [__init__] changes neither class, parent nor rank of any
    object. *)
Lemma finish_attrs k self (h : heap) :
  attrs <$> fst (finish k self h) = attrs <$> h.
Proof.
  destruct k; try reflexivity. unfold finish.
  unfold bind at 1.
  pose proof (getattr_frame parent (VRef self) h) as Hf1.
  destruct (getattr parent (VRef self) h) as [h1 [p|e]] eqn:Hp;
    simpl in Hf1; subst h1; [|reflexivity].
  unfold bind at 1.
  pose proof (getattr_frame bodyType p h) as Hf2.
  destruct (getattr bodyType p h) as [h1 [bt|e]] eqn:Hbt;
    simpl in Hf2; subst h1; [|reflexivity].
  destruct (String.eqb bt "Star"); [apply setattr_bodySubtype_attrs|].
  unfold bind at 1. rewrite Hp. unfold bind at 1. rewrite Hbt.
  destruct (String.eqb bt "Planet"); apply setattr_bodySubtype_attrs.
Qed.

Lemma system_parent_new (h : heap) o x :
  cls x <> KSystem ->
  system_parent (h ++ [x]) o = system_parent h o.
Proof.
  intros Hx. unfold system_parent.
  destruct (parent o) as [[|p]|]; try reflexivity.
  destruct (h !! p) as [op|] eqn:Hp.
  - now rewrite (lookup_app_l_Some _ _ _ _ Hp).
  - apply lookup_ge_None in Hp.
    destruct (decide (p = length h)) as [->|Hne].
    + rewrite lookup_new. now destruct (decide (cls x = KSystem)).
    + rewrite lookup_ge_None_2; [reflexivity|].
      rewrite length_app. simpl. lia.
Qed.

(** ** Constructing under a Star or a Belt *)

Lemma assign_under_Star_or_Belt d (h : heap) P o os r k nm :
  h !! P = Some o -> cls o = KStar \/ cls o = KBelt ->
  orbitals o = Some os -> bodyRank o = Some r ->
  assign_to_parent (S (S d)) (length h) (h ++ [fresh k nm (VRef P)]) =
  match system_parent (h ++ [fresh k nm (VRef P)]) o with
  | Some sys =>
      System_subAssign sys (VRef (length h))
        (attached (h ++ [fresh k nm (VRef P)]) P o os r (length h)
           (fresh k nm (VRef P)))
  | None =>
      (attached (h ++ [fresh k nm (VRef P)]) P o os r (length h)
         (fresh k nm (VRef P)), Ok tt)
  end.
Proof.
  intros HP Hk Hos Hr.
  pose proof (lookup_lt_Some _ _ _ HP) as Hlt.
  set (x := fresh k nm (VRef P)). set (h0 := h ++ [x]).
  assert (Hx0 : h0 !! length h = Some x) by apply lookup_new.
  assert (HP0 : h0 !! P = Some o) by now apply lookup_app_l_Some.
  assert (Hne : length h <> P) by lia.
  rewrite (assign_to_parent_run _ _ _ _ _ Hx0 (parent_fresh k nm (VRef P))).
  assert (Hcall : call_subAssign (S (S d)) (VRef P) (VRef (length h)) h0
                  = Star_subAssign (call_subAssign (S d)) P (VRef (length h)) h0).
  { destruct Hk as [Hk|Hk].
    - apply (call_subAssign_Star _ _ _ _ _ HP0 Hk).
    - rewrite (call_subAssign_Belt _ _ _ _ _ HP0 Hk). now rewrite Belt_subAssign_eq. }
  unfold try_except. rewrite Hcall.
  rewrite (forward_to_parent _ _ _ _ _ _ _ _ HP0 Hos Hr Hx0 Hne).
  destruct (system_parent h0 o) as [sys|]; [|reflexivity].
  apply System_subAssign_guarded.
Qed.

(** C5, as stated, fails: [Minor("Vesta", belt)] for the belt (1) around
    the System (0) succeeds and the new Minor (2) ends up in the System's
    [bodies]. *)
Lemma Minor_under_Belt_reaches_System :
  exists h' b sys,
    belt_heap !! 1 = Some b /\ cls b = KBelt /\
    belt_heap !! 0 = Some sys /\ cls sys = KSystem /\
    bodies sys = Some [VRef 1] /\
    Minor_new 10 "Vesta" (VRef 1) belt_heap = (h', Ok 2) /\
    cls <$> h' !! 2 = Some KMinor /\
    bodies <$> h' !! 0 = Some (Some [VRef 1; VRef 2]).
Proof.
  eexists _, _, _. repeat split; try reflexivity.
Qed.

(** C5, amended. [Minor(nm, belt)] for a [Belt] succeeds; the Minor is
    put into the Belt's [orbitals] with the Belt as parent and the Belt's
    rank plus one.  When the Belt's own parent is not a [System] nothing
    else changes, whatever lies further up: no System receives the Minor.
    When the Belt's parent is a [System] the Minor is forwarded to
    [System.subAssign], which adds it to [bodies] if its new rank exceeds
    the System's rank. *)
Theorem Minor_under_Belt d (h : heap) b o os r nm :
  h !! b = Some o -> cls o = KBelt ->
  orbitals o = Some os -> bodyRank o = Some r ->
  let m := length h in
  let x := mkObj KMinor (Some nm) (Some (VRef b)) (Some 4%Z) None None None
             None in
  let h1 := attached (h ++ [x]) b o os r m x in
  h1 !! b = Some (with_orbitals (os ++ [VRef m]) o) /\
  h1 !! m = Some (with_bodyRank (r + 1) x) /\
  (system_parent h o = None ->
     Minor_new (S (S d)) nm (VRef b) h = (h1, Ok m) /\
     forall l, l <> b -> l < length h -> h1 !! l = h !! l) /\
  (forall sys, system_parent h o = Some sys ->
     Minor_new (S (S d)) nm (VRef b) h
     = (fst (System_subAssign sys (VRef m) h1), Ok m) /\
     forall oS rs bs,
       h !! sys = Some oS -> bodyRank oS = Some rs -> bodies oS = Some bs ->
       (r + 1 > rs)%Z ->
       Minor_new (S (S d)) nm (VRef b) h
       = (<[sys := with_bodies (bs ++ [VRef m]) oS]> h1, Ok m)).
Proof.
  intros Hb Hk Hos Hr m x h1.
  pose proof (lookup_lt_Some _ _ _ Hb) as Hlt.
  assert (Hx0 : (h ++ [x]) !! m = Some x) by apply lookup_new.
  assert (Hb0 : (h ++ [x]) !! b = Some o) by now apply lookup_app_l_Some.
  assert (Hne : m <> b) by (unfold m; lia).
  pose proof (attached_self _ b o os r m x Hb0 Hne) as Hb1.
  pose proof (attached_child _ b o os r m x Hx0) as Hm1.
  fold h1 in Hb1, Hm1.
  assert (Hnew : Minor_new (S (S d)) nm (VRef b) h =
                 match system_parent h o with
                 | Some sys => (fst (System_subAssign sys (VRef m) h1), Ok m)
                 | None => (h1, Ok m)
                 end).
  { change (Minor_new (S (S d)) nm (VRef b) h)
      with (construct CMinor (S (S d)) nm (VRef b) h).
    rewrite construct_run. change (fresh CMinor nm (VRef b)) with x.
    unfold bind at 1.
    pose proof (assign_under_Star_or_Belt d h b o os r CMinor nm Hb
                  (or_intror Hk) Hos Hr) as Hrun.
    change (fresh CMinor nm (VRef b)) with x in Hrun. fold m h1 in Hrun.
    rewrite system_parent_new in Hrun by discriminate.
    fold m. rewrite Hrun. clear Hrun.
    destruct (system_parent h o) as [sys|]; [|reflexivity].
    destruct (System_subAssign_shape sys (VRef m) h1) as (h2 & -> & _).
    reflexivity. }
  rewrite Hnew. clear Hnew.
  split; [exact Hb1|]. split; [exact Hm1|]. split.
  - intros ->. split; [reflexivity|].
    intros l Hlb Hll. unfold h1. rewrite attached_other by (unfold m; lia).
    now apply lookup_app_l.
  - intros sys Hsp. rewrite Hsp. split; [reflexivity|].
    intros oS rs bs HS Hrs Hbs Hgt.
    apply system_parent_Some in Hsp as (_ & oS' & HS' & HkS).
    assert (oS' = oS) as -> by congruence.
    assert (HS1 : h1 !! sys = Some oS).
    { unfold h1. rewrite attached_other.
      - now apply lookup_app_l_Some.
      - intros ->. congruence.
      - apply lookup_lt_Some in HS. unfold m. lia. }
    destruct (System_subAssign_by_rank sys oS rs m _ (r + 1)%Z h1 HS1 Hrs
                Hm1 eq_refl) as (Hbod & _ & _).
    now rewrite (Hbod bs Hbs Hgt).
Qed.

Lemma Minor_under_Belt_witness :
  Minor_new 2 "Pan" (VRef 2) ring_heap
  = (attached
       (ring_heap ++ [mkObj KMinor (Some "Pan") (Some (VRef 2)) (Some 4%Z)
                        None None None None])
       2 (mkObj KBelt (Some "Rings") (Some (VRef 1)) (Some 4%Z) (Some [])
            None None (Some "Ring"))
       [] 4 4
       (mkObj KMinor (Some "Pan") (Some (VRef 2)) (Some 4%Z) None None None
          None),
     Ok 4) /\
  Minor_new 2 "Vesta" (VRef 1) belt_heap
  = (<[0 := with_bodies [VRef 1; VRef 2]
              (mkObj KSystem (Some "Sol") (Some VNone) (Some 2%Z) None
                 (Some []) (Some [VRef 1]) None)]>
       (attached
          (belt_heap ++ [mkObj KMinor (Some "Vesta") (Some (VRef 1))
                           (Some 4%Z) None None None None])
          1 (mkObj KBelt (Some "Inner Belt") (Some (VRef 0)) (Some 3%Z)
               (Some []) None None (Some "Cloud"))
          [] 3 2
          (mkObj KMinor (Some "Vesta") (Some (VRef 1)) (Some 4%Z) None None
             None None)),
     Ok 2).
Proof.
  split.
  - destruct (Minor_under_Belt 0 ring_heap 2
                (mkObj KBelt (Some "Rings") (Some (VRef 1)) (Some 4%Z)
                   (Some []) None None (Some "Ring"))
                [] 4 "Pan" eq_refl eq_refl eq_refl eq_refl)
      as (_ & _ & Hnone & _).
    exact (proj1 (Hnone eq_refl)).
  - destruct (Minor_under_Belt 0 belt_heap 1
                (mkObj KBelt (Some "Inner Belt") (Some (VRef 0)) (Some 3%Z)
                   (Some []) None None (Some "Cloud"))
                [] 3 "Vesta" eq_refl eq_refl eq_refl eq_refl)
      as (_ & _ & _ & Hsome).
    destruct (Hsome 0 eq_refl) as (_ & Hrank).
    apply (Hrank (mkObj KSystem (Some "Sol") (Some VNone) (Some 2%Z) None
                    (Some []) (Some [VRef 1]) None) 2%Z [VRef 1]
             eq_refl eq_refl eq_refl).
    lia.
Defined.

(** ** Rank of a body built under a Star, a Belt or a Body *)

Lemma finish_under_bodyType rk self om P oP bt (h : heap) :
  h !! self = Some om -> parent om = Some (VRef P) ->
  h !! P = Some oP -> bodyType oP = Some bt ->
  snd (finish (CBelt rk) self h) = Ok tt.
Proof.
  intros Hm Hpm HP Hbt. unfold finish.
  rewrite (bind_ok _ _ _ _ _ (getattr_ok parent _ _ _ _ Hm Hpm)).
  rewrite (bind_ok _ _ _ _ _ (getattr_ok bodyType _ _ _ _ HP Hbt)).
  destruct (String.eqb bt "Star").
  - now rewrite (setattr_ok _ _ _ _ Hm).
  - rewrite (bind_ok _ _ _ _ _ (getattr_ok parent _ _ _ _ Hm Hpm)).
    rewrite (bind_ok _ _ _ _ _ (getattr_ok bodyType _ _ _ _ HP Hbt)).
    destruct (String.eqb bt "Planet"); now rewrite (setattr_ok _ _ _ _ Hm).
Qed.

(** The store in which the parent's [subAssign] has run, for a parent that
    is a Star, a Belt or a Body: up to the lists of Systems it is the
    store with the three assignments made. *)
Lemma assign_to_parent_core d (h : heap) P oP os r k nm :
  h !! P = Some oP -> cls oP <> KSystem -> cls oP <> KMinor ->
  orbitals oP = Some os -> bodyRank oP = Some r ->
  core <$> fst (assign_to_parent (S d) (length h)
                  (h ++ [fresh k nm (VRef P)]))
  = core <$> attached (h ++ [fresh k nm (VRef P)]) P oP os r (length h)
               (fresh k nm (VRef P)).
Proof.
  intros HP Hns Hnm Hos Hr.
  pose proof (lookup_lt_Some _ _ _ HP) as Hlt.
  set (x := fresh k nm (VRef P)). set (h0 := h ++ [x]).
  assert (Hx0 : h0 !! length h = Some x) by apply lookup_new.
  assert (HP0 : h0 !! P = Some oP) by now apply lookup_app_l_Some.
  assert (Hne : length h <> P) by lia.
  rewrite (assign_to_parent_run _ _ _ _ _ Hx0 (parent_fresh k nm (VRef P))).
  apply try_except_core.
  destruct (cls oP) eqn:Hk; try contradiction.
  - rewrite (call_subAssign_Body _ _ _ _ _ HP0 (or_introl Hk)).
    now apply Body_subAssign_core.
  - rewrite (call_subAssign_Body _ _ _ _ _ HP0 (or_intror Hk)).
    now apply Body_subAssign_core.
  - rewrite (call_subAssign_Star _ _ _ _ _ HP0 Hk).
    now apply Star_subAssign_core.
  - rewrite (call_subAssign_Belt _ _ _ _ _ HP0 Hk), Belt_subAssign_eq.
    now apply Star_subAssign_core.
Qed.

Lemma construct_returns_new k d nm par (h : heap) b :
  snd (construct k d nm par h) = Ok b -> b = length h.
Proof.
  rewrite construct_run. unfold bind, ret.
  destruct (assign_to_parent d (length h) _) as [h1 [[]|e]]; [|discriminate].
  destruct (finish k (length h) h1) as [h2 [[]|e]]; [|discriminate].
  simpl. congruence.
Qed.

Lemma construct_heap k d nm par (h : heap) :
  attrs <$> fst (construct k d nm par h)
  = attrs <$> fst (assign_to_parent d (length h) (h ++ [fresh k nm par])).
Proof.
  rewrite construct_run. unfold bind at 1.
  destruct (assign_to_parent d (length h) _) as [h1 [[]|e]]; [|reflexivity].
  unfold bind. simpl.
  pose proof (finish_attrs k (length h) h1) as Hf.
  destruct (finish k (length h) h1) as [h2 [[]|e]]; exact Hf.
Qed.

(** C6. A body built by any of the constructors with a parent [P] that is
    a Star, a Belt or a generic Body (Planet included) carrying [orbitals]
    and a [bodyRank]: once the parent's [subAssign] has been entered, the
    store has the new body with rank [P.bodyRank + 1] and parent [P], and
    [P]'s rank is unchanged; this is the store at the end of the
    construction, and also the store left behind should the construction
    raise.  A construction that completes returns the new body, and under
    a Star or a Belt it completes. *)
Theorem rank_after_construction k d nm (h : heap) P oP os r :
  h !! P = Some oP ->
  cls oP = KStar \/ cls oP = KBelt \/ cls oP = KBody \/ cls oP = KPlanet ->
  orbitals oP = Some os -> bodyRank oP = Some r ->
  (exists oB, fst (construct k (S d) nm (VRef P) h) !! length h = Some oB /\
     bodyRank oB = Some (r + 1)%Z /\ parent oB = Some (VRef P)) /\
  (exists oP', fst (construct k (S d) nm (VRef P) h) !! P = Some oP' /\
     bodyRank oP' = Some r) /\
  (forall b, snd (construct k (S d) nm (VRef P) h) = Ok b -> b = length h) /\
  (cls oP = KStar \/ cls oP = KBelt ->
     snd (construct k (S (S d)) nm (VRef P) h) = Ok (length h)).
Proof.
  intros HP Hk Hos Hr.
  pose proof (lookup_lt_Some _ _ _ HP) as Hlt.
  assert (Hns : cls oP <> KSystem)
    by (destruct Hk as [E|[E|[E|E]]]; rewrite E; discriminate).
  assert (Hnm : cls oP <> KMinor)
    by (destruct Hk as [E|[E|[E|E]]]; rewrite E; discriminate).
  set (x := fresh k nm (VRef P)). set (h0 := h ++ [x]).
  set (h1 := attached h0 P oP os r (length h) x).
  assert (Hx0 : h0 !! length h = Some x) by apply lookup_new.
  assert (HP0 : h0 !! P = Some oP) by now apply lookup_app_l_Some.
  assert (Hne : length h <> P) by lia.
  pose proof (attached_self h0 P oP os r (length h) x HP0 Hne) as HP1.
  pose proof (attached_child h0 P oP os r (length h) x Hx0) as Hx1.
  fold h1 in HP1, Hx1.
  assert (Hattrs : forall d', attrs <$> fst (construct k (S d') nm (VRef P) h)
                              = attrs <$> h1).
  { intros d'. rewrite construct_heap. apply core_attrs.
    now apply assign_to_parent_core. }
  split; [|split; [|split]].
  - destruct (attrs_lookup _ _ _ _ (Hattrs d) Hx1) as (oB & HB & _ & Hp & Hrk).
    exists oB. split; [exact HB|]. split; [exact Hrk|exact Hp].
  - destruct (attrs_lookup _ _ _ _ (Hattrs d) HP1) as (oP' & HP' & _ & _ & Hrk).
    exists oP'. split; [exact HP'|]. now rewrite Hrk.
  - intros b. apply construct_returns_new.
  - intros Hsb. rewrite construct_run. fold x h0.
    assert (Hsb' : cls oP = KStar \/ cls oP = KBelt) by exact Hsb.
    pose proof (assign_under_Star_or_Belt d h P oP os r k nm HP Hsb' Hos Hr)
      as Hrun.
    fold x h0 h1 in Hrun.
    pose proof (assign_to_parent_core (S d) h P oP os r k nm HP Hns Hnm Hos Hr)
      as Hcore.
    fold x h0 h1 in Hcore. apply core_attrs in Hcore.
    assert (Hok : exists h2, assign_to_parent (S (S d)) (length h) h0
                             = (h2, Ok tt)).
    { rewrite Hrun. destruct (system_parent h0 oP) as [sys|]; [|eauto].
      destruct (System_subAssign_shape sys (VRef (length h)) h1)
        as (h2 & -> & _). eauto. }
    destruct Hok as (h2 & Hok). rewrite Hok in Hcore. simpl in Hcore.
    unfold bind at 1. rewrite Hok. unfold bind at 1.
    assert (Hfin : snd (finish k (length h) h2) = Ok tt).
    { destruct (attrs_lookup _ _ _ _ Hcore Hx1) as (om & Hm2 & _ & Hpm & _).
      destruct (attrs_lookup _ _ _ _ Hcore HP1) as (oP2 & HP2 & Hk2 & _ & _).
      simpl in Hpm, Hk2.
      destruct k; try reflexivity.
      assert (Hbt : exists bt, bodyType oP2 = Some bt).
      { unfold bodyType. rewrite Hk2.
        destruct Hsb as [-> | ->]; simpl; eauto. }
      destruct Hbt as (bt & Hbt).
      eapply finish_under_bodyType; eauto. }
    destruct (finish k (length h) h2) as [h3 [[]|e]]; [reflexivity|].
    discriminate.
Qed.

Lemma rank_after_construction_witness :
  (exists oB, fst (construct CPlanet 1 "Phobos" (VRef 2) sample_heap) !! 7
              = Some oB /\
     bodyRank oB = Some 4%Z /\ parent oB = Some (VRef 2)) /\
  snd (construct (CBelt 3) 2 "Outer" (VRef 1) sample_heap) = Ok 7.
Proof.
  split.
  - exact (proj1 (rank_after_construction CPlanet 0 "Phobos" sample_heap 2
                    (mkObj KPlanet (Some "Earth") (Some (VRef 1)) (Some 3%Z)
                       (Some [VRef 3]) None None None)
                    [VRef 3] 3 eq_refl
                    (or_intror (or_intror (or_intror eq_refl)))
                    eq_refl eq_refl)).
  - refine (proj2 (proj2 (proj2
             (rank_after_construction (CBelt 3) 0 "Outer" sample_heap 1
                (mkObj KStar (Some "Sun") (Some (VRef 0)) (Some 2%Z)
                   (Some [VRef 2]) None None None)
                [VRef 2] 2 eq_refl (or_introl eq_refl) eq_refl eq_refl)))
             (or_introl eq_refl)).
Defined.

(** ** [System.subAssign] leaves the child alone *)

Lemma call_subAssign_None d c (h : heap) :
  call_subAssign d VNone c h = (h, Raise AttributeError).
Proof. destruct d; reflexivity. Qed.

Lemma assign_under_System_core d (h : heap) sys oS k nm :
  h !! sys = Some oS -> cls oS = KSystem ->
  core <$> fst (assign_to_parent d (length h) (h ++ [fresh k nm (VRef sys)]))
  = core <$> (h ++ [fresh k nm (VRef sys)]).
Proof.
  intros HS Hk.
  rewrite (assign_to_parent_run _ _ _ _ _ (lookup_new h _)
             (parent_fresh k nm (VRef sys))).
  apply try_except_core.
  eapply call_subAssign_System_core; eauto.
  now apply lookup_app_l_Some.
Qed.

(** C10. [System.subAssign] never touches the child: it returns normally,
    every object other than the System is exactly as before, and no
    object, the System and the child included, changes class, parent or
    rank.  Hence a child forwarded by a Star, a Belt or a Body still has
    that container as parent, with the container's rank plus one, and a
    body built directly under a System has the parent and the rank its own
    constructor stored. *)
Theorem System_subAssign_leaves_child :
  (forall sys c (h : heap),
     snd (System_subAssign sys c h) = Ok tt /\
     (forall l, l <> sys -> fst (System_subAssign sys c h) !! l = h !! l) /\
     (forall l o, h !! l = Some o ->
        exists o', fst (System_subAssign sys c h) !! l = Some o' /\
          cls o' = cls o /\ parent o' = parent o /\
          bodyRank o' = bodyRank o)) /\
  (forall d (h : heap) st o os r c oc,
     h !! st = Some o ->
     cls o = KStar \/ cls o = KBelt \/ cls o = KBody \/ cls o = KPlanet ->
     orbitals o = Some os -> bodyRank o = Some r ->
     h !! c = Some oc -> c <> st ->
     exists oc',
       fst (call_subAssign (S d) (VRef st) (VRef c) h) !! c = Some oc' /\
       parent oc' = Some (VRef st) /\ bodyRank oc' = Some (r + 1)%Z) /\
  (forall k d nm (h : heap) sys oS,
     h !! sys = Some oS -> cls oS = KSystem ->
     exists oB,
       fst (construct k d nm (VRef sys) h) !! length h = Some oB /\
       parent oB = Some (VRef sys) /\
       bodyRank oB = bodyRank (fresh k nm (VRef sys))).
Proof.
  split; [|split].
  - intros sys c h. split; [|split].
    + destruct (System_subAssign_shape sys c h) as (h' & -> & _). reflexivity.
    + intros l Hl. now apply System_subAssign_others.
    + intros l o Hl.
      apply (attrs_lookup h); [|exact Hl].
      apply core_attrs, System_subAssign_core.
  - intros d h st o os r c oc Hs Hk Hos Hr Hc Hne.
    assert (Hcore : core <$> fst (call_subAssign (S d) (VRef st) (VRef c) h)
                    = core <$> attached h st o os r c oc).
    { destruct Hk as [Hk|[Hk|[Hk|Hk]]].
      - rewrite (call_subAssign_Star _ _ _ _ _ Hs Hk).
        now apply Star_subAssign_core.
      - rewrite (call_subAssign_Belt _ _ _ _ _ Hs Hk), Belt_subAssign_eq.
        now apply Star_subAssign_core.
      - rewrite (call_subAssign_Body _ _ _ _ _ Hs (or_introl Hk)).
        now apply Body_subAssign_core.
      - rewrite (call_subAssign_Body _ _ _ _ _ Hs (or_intror Hk)).
        now apply Body_subAssign_core. }
    destruct (attrs_lookup _ _ _ _ (core_attrs _ _ Hcore)
                (attached_child h st o os r c oc Hc))
      as (oc' & Hc' & _ & Hp & Hrk).
    exists oc'. split; [exact Hc'|]. split; [exact Hp|exact Hrk].
  - intros k d nm h sys oS HS Hk.
    pose proof (construct_heap k d nm (VRef sys) h) as Hattrs.
    rewrite (core_attrs _ _ (assign_under_System_core d h sys oS k nm HS Hk))
      in Hattrs.
    destruct (attrs_lookup _ _ _ _ Hattrs (lookup_new h _))
      as (oB & HB & _ & Hp & Hrk).
    exists oB. split; [exact HB|]. split; [|exact Hrk].
    rewrite Hp. apply parent_fresh.
Qed.

Lemma System_subAssign_leaves_child_witness :
  (exists oc',
     fst (call_subAssign 2 (VRef 1) (VRef 6) sample_heap) !! 6 = Some oc' /\
     parent oc' = Some (VRef 1) /\ bodyRank oc' = Some 3%Z) /\
  (exists oB,
     fst (construct CPlanet 2 "Mars" (VRef 0) sample_heap) !! 7 = Some oB /\
     parent oB = Some (VRef 0) /\ bodyRank oB = Some 3%Z).
Proof.
  destruct System_subAssign_leaves_child as (_ & Hfw & Hdirect).
  split.
  - exact (Hfw 1 sample_heap 1
             (mkObj KStar (Some "Sun") (Some (VRef 0)) (Some 2%Z)
                (Some [VRef 2]) None None None)
             [VRef 2] 2%Z 6
             (mkObj KPlanet (Some "Rogue") (Some VNone) (Some 3%Z) (Some [])
                None None None)
             eq_refl (or_introl eq_refl) eq_refl eq_refl eq_refl
             (fun E : 6 = 1 => eq_ind 6 (fun n => match n with
                                                   | 6 => True
                                                   | _ => False
                                                   end) I 1 E)).
  - exact (Hdirect CPlanet 2 "Mars" sample_heap 0
             (mkObj KSystem (Some "Sol") (Some VNone) (Some 2%Z) None
                (Some [VRef 1]) (Some [VRef 2; VRef 3; VRef 4; VRef 5]) None)
             eq_refl eq_refl).
Defined.

(** ** Exceptions that reach the caller *)

(** C8. [Belt(nm)], with the default [parent=None], raises
    [AttributeError]: the test of [self.parent.bodyType] that chooses the
    subtype stands outside the constructor's [try].  The other
    constructors return their new instance for the same argument. *)
Theorem Belt_without_parent_raises d nm rk (h : heap) :
  Belt_new d nm VNone rk h
  = (h ++ [fresh (CBelt rk) nm VNone], Raise AttributeError) /\
  Planet_new d nm VNone h = (h ++ [fresh CPlanet nm VNone], Ok (length h)) /\
  Star_new d nm VNone h = (h ++ [fresh CStar nm VNone], Ok (length h)) /\
  System_new d nm VNone rk h
  = (h ++ [fresh (CSystem rk) nm VNone], Ok (length h)) /\
  Minor_new d nm VNone h = (h ++ [fresh CMinor nm VNone], Ok (length h)).
Proof.
  assert (Hrun : forall k,
            assign_to_parent d (length h) (h ++ [fresh k nm VNone])
            = (h ++ [fresh k nm VNone], Ok tt)).
  { intros k.
    rewrite (assign_to_parent_run _ _ _ _ _ (lookup_new h _)
               (parent_fresh k nm VNone)).
    unfold try_except. now rewrite call_subAssign_None. }
  assert (Hc : forall k, construct k d nm VNone h =
            (finish k (length h) ;; ret (length h)) (h ++ [fresh k nm VNone])).
  { intros k. rewrite construct_run. unfold bind at 1. now rewrite Hrun. }
  split; [|split; [|split; [|split]]].
  - change (Belt_new d nm VNone rk h) with (construct (CBelt rk) d nm VNone h).
    rewrite Hc. unfold bind at 1. unfold finish.
    rewrite (bind_ok _ _ _ _ _ (getattr_ok parent _ _ _ _ (lookup_new h _)
                                   (parent_fresh (CBelt rk) nm VNone))).
    reflexivity.
  - exact (Hc CPlanet).
  - exact (Hc CStar).
  - exact (Hc (CSystem rk)).
  - exact (Hc CMinor).
Qed.

(** * Further properties of the code *)

(** ** Nothing is ever removed *)

Lemma grows_obj_refl o : grows_obj o o.
Proof.
  repeat split; auto; intros xs H; exists []; now rewrite app_nil_r.
Qed.

Lemma grows_obj_trans o1 o2 o3 :
  grows_obj o1 o2 -> grows_obj o2 o3 -> grows_obj o1 o3.
Proof.
  intros (Hc & Hn & Ho & Hh & Hb & Hp & Hr) (Hc' & Hn' & Ho' & Hh' & Hb' & Hp' & Hr').
  repeat split; try congruence; auto.
  - intros xs H. destruct (Ho _ H) as (ys & H2). destruct (Ho' _ H2) as (zs & H3).
    exists (ys ++ zs). now rewrite app_assoc.
  - intros xs H. destruct (Hh _ H) as (ys & H2). destruct (Hh' _ H2) as (zs & H3).
    exists (ys ++ zs). now rewrite app_assoc.
  - intros xs H. destruct (Hb _ H) as (ys & H2). destruct (Hb' _ H2) as (zs & H3).
    exists (ys ++ zs). now rewrite app_assoc.
Qed.

Lemma grows_refl (h : heap) : grows h h.
Proof. intros l o H. eauto using grows_obj_refl. Qed.

Lemma grows_trans (h1 h2 h3 : heap) : grows h1 h2 -> grows h2 h3 -> grows h1 h3.
Proof.
  intros H12 H23 l o H. destruct (H12 _ _ H) as (o2 & H2 & G2).
  destruct (H23 _ _ H2) as (o3 & H3 & G3). eauto using grows_obj_trans.
Qed.

Lemma grows_insert (h : heap) l o o' :
  h !! l = Some o -> grows_obj o o' -> grows h (<[l := o']> h).
Proof.
  intros H G l' o1 H1. destruct (decide (l' = l)) as [->|Hne].
  - rewrite list_lookup_insert_eq by (eapply lookup_lt_Some; eauto).
    assert (o1 = o) as -> by congruence. eauto.
  - rewrite list_lookup_insert_ne by done. eauto using grows_obj_refl.
Qed.

Lemma grows_new (h : heap) o : grows h (h ++ [o]).
Proof.
  intros l o1 H1. rewrite (lookup_app_l_Some _ _ _ _ H1).
  eauto using grows_obj_refl.
Qed.

Lemma keeps_ret {A} (a : A) : keeps (ret a).
Proof. intros h. apply grows_refl. Qed.

Lemma keeps_raise {A} e : keeps (@raise A e).
Proof. intros h. apply grows_refl. Qed.

Lemma keeps_bind {A B} (m : M A) (k : A -> M B) :
  keeps m -> (forall a, keeps (k a)) -> keeps (bind m k).
Proof.
  intros Hm Hk h. unfold bind. specialize (Hm h).
  destruct (m h) as [h1 [a|e]]; simpl in *; [|exact Hm].
  eapply grows_trans; [exact Hm|apply Hk].
Qed.

Lemma keeps_try {A} (m handler : M A) :
  keeps m -> keeps handler -> keeps (try_except m handler).
Proof.
  intros Hm Hh h. unfold try_except. specialize (Hm h).
  destruct (m h) as [h1 [a|[|]]]; simpl in *; try exact Hm.
  eapply grows_trans; [exact Hm|apply Hh].
Qed.

Lemma keeps_getattr {A} (field : obj -> option A) v : keeps (getattr field v).
Proof. intros h. rewrite getattr_frame. apply grows_refl. Qed.

Lemma keeps_setattr upd v :
  (forall o, grows_obj o (upd o)) -> keeps (setattr upd v).
Proof.
  intros Hupd h. unfold setattr, bind, deref.
  destruct v as [|l]; [apply grows_refl|].
  destruct (h !! l) as [o|] eqn:Hl; [|apply grows_refl]. simpl.
  eapply grows_insert; eauto.
Qed.

Lemma grows_with_parent p o : grows_obj o (with_parent p o).
Proof.
  repeat split; simpl; eauto; intros xs H; exists []; now rewrite app_nil_r.
Qed.

Lemma grows_with_bodyRank r o : grows_obj o (with_bodyRank r o).
Proof.
  repeat split; simpl; eauto; intros xs H; exists []; now rewrite app_nil_r.
Qed.

Lemma grows_with_bodySubtype s o : grows_obj o (with_bodySubtype s o).
Proof.
  repeat split; simpl; eauto; intros xs H; exists []; now rewrite app_nil_r.
Qed.

Lemma keeps_append_orbitals v c : keeps (append_to orbitals with_orbitals v c).
Proof.
  intros h. unfold append_to.
  destruct (getattr_cases orbitals v h) as [E|(l & o & xs & -> & Hl & Hxs & E)].
  - rewrite (bind_raise _ _ _ _ _ E). apply grows_refl.
  - rewrite (bind_ok _ _ _ _ _ E), (setattr_ok _ _ _ _ Hl). simpl.
    eapply grows_insert; [exact Hl|].
    repeat split; simpl; eauto.
    + intros ys Hys. exists [c]. congruence.
    + intros ys Hys. exists []. now rewrite app_nil_r.
    + intros ys Hys. exists []. now rewrite app_nil_r.
Qed.

Lemma keeps_append_heads v c : keeps (append_to heads with_heads v c).
Proof.
  intros h. unfold append_to.
  destruct (getattr_cases heads v h) as [E|(l & o & xs & -> & Hl & Hxs & E)].
  - rewrite (bind_raise _ _ _ _ _ E). apply grows_refl.
  - rewrite (bind_ok _ _ _ _ _ E), (setattr_ok _ _ _ _ Hl). simpl.
    eapply grows_insert; [exact Hl|].
    repeat split; simpl; eauto.
    + intros ys Hys. exists []. now rewrite app_nil_r.
    + intros ys Hys. exists [c]. congruence.
    + intros ys Hys. exists []. now rewrite app_nil_r.
Qed.

Lemma keeps_append_bodies v c : keeps (append_to bodies with_bodies v c).
Proof.
  intros h. unfold append_to.
  destruct (getattr_cases bodies v h) as [E|(l & o & xs & -> & Hl & Hxs & E)].
  - rewrite (bind_raise _ _ _ _ _ E). apply grows_refl.
  - rewrite (bind_ok _ _ _ _ _ E), (setattr_ok _ _ _ _ Hl). simpl.
    eapply grows_insert; [exact Hl|].
    repeat split; simpl; eauto.
    + intros ys Hys. exists []. now rewrite app_nil_r.
    + intros ys Hys. exists []. now rewrite app_nil_r.
    + intros ys Hys. exists [c]. congruence.
Qed.

Lemma keeps_deref v : keeps (deref v).
Proof.
  intros h. unfold deref. destruct v as [|l]; [apply grows_refl|].
  destruct (h !! l); apply grows_refl.
Qed.

Lemma keeps_call_system d v : keeps (call_system d v).
Proof. intros h. rewrite call_system_frame. apply grows_refl. Qed.

Ltac keeps_step :=
  first
    [ apply keeps_ret | apply keeps_raise | apply keeps_getattr
    | apply keeps_deref
    | apply keeps_call_system
    | apply keeps_append_orbitals | apply keeps_append_heads
    | apply keeps_append_bodies
    | apply keeps_setattr; first [ apply grows_with_parent
                                 | apply grows_with_bodyRank
                                 | apply grows_with_bodySubtype ]
    | apply keeps_try
    | apply keeps_bind; [|intros ?]
    | match goal with |- keeps (if ?b then _ else _) => destruct b end ].

Lemma keeps_System_subAssign sys c : keeps (System_subAssign sys c).
Proof. unfold System_subAssign. repeat keeps_step. Qed.

Lemma keeps_call_subAssign d : forall v c, keeps (call_subAssign d v c).
Proof.
  induction d as [|d IH]; intros v c; simpl.
  - repeat keeps_step.
  - apply keeps_bind; [apply keeps_deref|].
    intros [l o]. simpl.
    destruct (cls o);
      unfold Body_subAssign, Star_subAssign, Belt_subAssign, Minor_subAssign,
        method_append;
      try apply keeps_System_subAssign;
      repeat first [ apply IH | keeps_step ].
Qed.

Lemma keeps_assign_to_parent d self : keeps (assign_to_parent d self).
Proof.
  unfold assign_to_parent.
  repeat first [ apply keeps_call_subAssign | keeps_step ].
Qed.

Lemma keeps_finish k self : keeps (finish k self).
Proof. destruct k; unfold finish; repeat keeps_step. Qed.

(** X1. Whatever the arguments and however the call ends, [subAssign] and
    the constructors never remove an object from the store, never change
    the class or the name of one, never unassign a [parent] or a
    [bodyRank], and only ever extend [orbitals], [heads] and [bodies] at
    their end. *)
Theorem store_only_grows :
  (forall d v c (h : heap), grows h (fst (call_subAssign d v c h))) /\
  (forall k d nm par (h : heap), grows h (fst (construct k d nm par h))).
Proof.
  split.
  - intros d v c h. apply keeps_call_subAssign.
  - intros k d nm par h. rewrite construct_run.
    eapply grows_trans; [apply grows_new|].
    assert (Hk : keeps (assign_to_parent d (length h) ;;
                        finish k (length h) ;; ret (length h))).
    { repeat first [ apply keeps_assign_to_parent | apply keeps_finish
                   | keeps_step ]. }
    apply Hk.
Qed.

(** ** [system()]: what can go wrong *)

(** X2. [system()] called on an object of the store never raises
    [AttributeError], whatever the state of its ancestors: it returns
    [None] or a [System] of the store, or it runs out of call depth; and
    it leaves the store as it was. *)
Theorem system_never_AttributeError d l o (h : heap) :
  h !! l = Some o ->
  (exists r, call_system d (VRef l) h = (h, Ok r) /\
     (r = VNone \/
      exists s oS, r = VRef s /\ h !! s = Some oS /\ cls oS = KSystem)) \/
  call_system d (VRef l) h = (h, Raise RecursionError).
Proof.
  revert l o. induction d as [|d IH]; intros l o Hl.
  - right. simpl. unfold bind. now rewrite (deref_ok _ _ _ Hl).
  - rewrite (call_system_step _ _ _ _ Hl).
    destruct (decide (cls o = KSystem)) as [Hk|Hk]; [left; eauto 8|].
    unfold walk_up, try_except.
    destruct (parent o) as [[|p]|] eqn:Hp.
    + left. exists VNone. split; [|now left].
      rewrite (bind_ok _ _ _ _ _ (getattr_ok parent _ _ _ _ Hl Hp)).
      now rewrite call_system_no_object.
    + rewrite (bind_ok _ _ _ _ _ (getattr_ok parent _ _ _ _ Hl Hp)).
      destruct (h !! p) as [op|] eqn:Hop.
      * destruct (IH p op Hop) as [(r & -> & Hr)| ->]; [left; eauto|now right].
      * left. exists VNone. split; [|now left].
        rewrite call_system_no_object; [reflexivity|]. now intros ? [= <-].
    + left. exists VNone. split; [|now left].
      now rewrite (bind_raise _ _ _ _ _ (getattr_missing parent _ _ _ Hl Hp)).
Qed.

Lemma system_never_AttributeError_witness :
  (exists r, call_system 2 (VRef 3) sample_heap = (sample_heap, Ok r) /\
     (r = VNone \/
      exists s oS, r = VRef s /\ sample_heap !! s = Some oS /\
        cls oS = KSystem)) \/
  call_system 2 (VRef 3) sample_heap = (sample_heap, Raise RecursionError).
Proof.
  exact (system_never_AttributeError 2 3
           (mkObj KPlanet (Some "Luna") (Some (VRef 2)) (Some 4%Z) (Some [])
              None None None) sample_heap eq_refl).
Defined.

Lemma call_system_closed (h : heap) (C : loc -> Prop) :
  parent_closed h C ->
  forall d l, C l -> call_system d (VRef l) h = (h, Raise RecursionError).
Proof.
  intros Hclosed. induction d as [|d IH]; intros l Hl;
    destruct (Hclosed l Hl) as (o & p & Ho & Hk & Hp & HCp).
  - simpl. unfold bind. now rewrite (deref_ok _ _ _ Ho).
  - rewrite (call_system_step _ _ _ _ Ho).
    destruct (decide (cls o = KSystem)); [contradiction|].
    unfold walk_up, try_except.
    rewrite (bind_ok _ _ _ _ _ (getattr_ok parent _ _ _ _ Ho Hp)).
    now rewrite (IH p HCp).
Qed.

(** X3. On a cycle of parents [system()] never returns: when an object
    belongs to a set of objects that are not Systems and whose parents lie
    in the set again, the call raises [RecursionError] at every call
    depth, and no [try] of the module catches it. *)
Theorem system_on_cycle_raises (h : heap) (C : loc -> Prop) d l :
  parent_closed h C -> C l ->
  call_system d (VRef l) h = (h, Raise RecursionError).
Proof. intros Hclosed Hl. now apply (call_system_closed h C). Qed.

Lemma cycle_heap_closed : parent_closed cycle_heap (fun l => l = 0 \/ l = 1).
Proof.
  intros l [-> | ->].
  - eexists _, 1. repeat split; try reflexivity; [discriminate|now right].
  - eexists _, 0. repeat split; try reflexivity; [discriminate|now left].
Defined.

Lemma system_on_cycle_raises_witness :
  call_system 1000 (VRef 0) cycle_heap = (cycle_heap, Raise RecursionError).
Proof.
  exact (system_on_cycle_raises cycle_heap (fun l => l = 0 \/ l = 1) 1000 0
           cycle_heap_closed (or_introl eq_refl)).
Defined.

(** ** A body assigned to itself *)

Lemma attach_self_run {A} (K : M A) (h : heap) b o os r :
  h !! b = Some o -> orbitals o = Some os -> bodyRank o = Some r ->
  (append_to orbitals with_orbitals (VRef b) (VRef b) ;;
   setattr (with_parent (VRef b)) (VRef b) ;;
   r <- getattr bodyRank (VRef b) ;;
   setattr (with_bodyRank (r + 1)) (VRef b) ;;
   K) h
  = K (<[b := with_bodyRank (r + 1)
               (with_parent (VRef b) (with_orbitals (os ++ [VRef b]) o))]> h).
Proof.
  intros Hb Hos Hr.
  pose proof (lookup_lt_Some _ _ _ Hb) as Hlt.
  rewrite (bind_ok _ _ _ _ _ (append_to_ok _ _ _ _ _ _ (VRef b) Hb Hos)).
  set (o1 := with_orbitals (os ++ [VRef b]) o).
  assert (H1 : <[b := o1]> h !! b = Some o1)
    by now apply list_lookup_insert_eq.
  rewrite (bind_ok _ _ _ _ _ (setattr_ok _ _ _ _ H1)).
  rewrite list_insert_insert_eq.
  set (o2 := with_parent (VRef b) o1).
  assert (H2 : <[b := o2]> h !! b = Some o2)
    by now apply list_lookup_insert_eq.
  rewrite (bind_ok _ _ _ _ r (getattr_ok bodyRank _ _ _ _ H2 Hr)).
  rewrite (bind_ok _ _ _ _ _ (setattr_ok _ _ _ _ H2)).
  now rewrite list_insert_insert_eq.
Qed.

(** X4. A body assigned to itself.  [b.subAssign(b)] puts [b] into its own
    [orbitals], makes it its own parent and raises its rank by one.  For a
    generic [Body] or a [Planet] the call then raises [RecursionError],
    from the [system()] lookup, at every call depth; for a [Star] or a
    [Belt] it returns normally.  Either way [b.system()] raises
    [RecursionError] from then on. *)
Theorem self_assignment d (h : heap) b o os r :
  h !! b = Some o -> orbitals o = Some os -> bodyRank o = Some r ->
  let h' := <[b := with_bodyRank (r + 1)
                     (with_parent (VRef b) (with_orbitals (os ++ [VRef b]) o))]> h in
  (cls o = KBody \/ cls o = KPlanet ->
     call_subAssign (S d) (VRef b) (VRef b) h = (h', Raise RecursionError)) /\
  (cls o = KStar \/ cls o = KBelt ->
     call_subAssign (S d) (VRef b) (VRef b) h = (h', Ok tt)) /\
  (cls o <> KSystem ->
     forall d', call_system d' (VRef b) h' = (h', Raise RecursionError)).
Proof.
  intros Hb Hos Hr h'.
  pose proof (lookup_lt_Some _ _ _ Hb) as Hlt.
  set (o3 := with_bodyRank (r + 1)
               (with_parent (VRef b) (with_orbitals (os ++ [VRef b]) o))) in *.
  assert (Hb' : h' !! b = Some o3) by now apply list_lookup_insert_eq.
  assert (Hloop : cls o <> KSystem ->
            forall d', call_system d' (VRef b) h' = (h', Raise RecursionError)).
  { intros Hk d'. apply (call_system_closed h' (fun l => l = b)); [|reflexivity].
    intros l ->. exists o3, b. repeat split; auto. }
  split; [|split; [|exact Hloop]].
  - intros Hk. rewrite (call_subAssign_Body _ _ _ _ _ Hb Hk).
    unfold Body_subAssign, try_except.
    rewrite (attach_self_run _ _ _ _ _ _ Hb Hos Hr). fold o3 h'.
    rewrite (bind_raise _ _ _ _ _ (Hloop ltac:(destruct Hk as [E|E]; rewrite E; discriminate) d)).
    reflexivity.
  - intros Hk.
    assert (Hrun : call_subAssign (S d) (VRef b) (VRef b) h
                   = Star_subAssign (call_subAssign d) b (VRef b) h).
    { destruct Hk as [Hk|Hk].
      - apply (call_subAssign_Star _ _ _ _ _ Hb Hk).
      - rewrite (call_subAssign_Belt _ _ _ _ _ Hb Hk). now rewrite Belt_subAssign_eq. }
    rewrite Hrun. unfold Star_subAssign, try_except.
    rewrite (attach_self_run _ _ _ _ _ _ Hb Hos Hr). fold o3 h'.
    rewrite (bind_ok _ _ _ _ (VRef b) (getattr_ok parent _ _ _ _ Hb' eq_refl)).
    assert (Hbt : exists bt, bodyType o3 = Some bt /\ String.eqb bt "System" = false).
    { unfold bodyType. simpl. destruct Hk as [-> | ->]; simpl; eauto. }
    destruct Hbt as (bt & Hbt & Hneq).
    rewrite (bind_ok _ _ _ _ _ (getattr_ok bodyType _ _ _ _ Hb' Hbt)).
    now rewrite Hneq.
Qed.

Lemma self_assignment_witness :
  call_subAssign 5 (VRef 2) (VRef 2) sample_heap
  = (<[2 := mkObj KPlanet (Some "Earth") (Some (VRef 2)) (Some 4%Z)
              (Some [VRef 3; VRef 2]) None None None]> sample_heap,
     Raise RecursionError) /\
  call_subAssign 5 (VRef 1) (VRef 1) sample_heap
  = (<[1 := mkObj KStar (Some "Sun") (Some (VRef 1)) (Some 3%Z)
              (Some [VRef 2; VRef 1]) None None None]> sample_heap,
     Ok tt).
Proof.
  split.
  - exact (proj1 (self_assignment 4 sample_heap 2
                    (mkObj KPlanet (Some "Earth") (Some (VRef 1)) (Some 3%Z)
                       (Some [VRef 3]) None None None)
                    [VRef 3] 3 eq_refl eq_refl eq_refl)
             (or_intror eq_refl)).
  - exact (proj1 (proj2 (self_assignment 4 sample_heap 1
                    (mkObj KStar (Some "Sun") (Some (VRef 0)) (Some 2%Z)
                       (Some [VRef 2]) None None None)
                    [VRef 2] 2 eq_refl eq_refl eq_refl))
             (or_introl eq_refl)).
Defined.

(** ** Building under a Minor *)

(** X5. A [Minor] never takes a child.  [minor.subAssign(c)] changes
    nothing for any [c]; a Planet, Star, System or Minor built with a
    Minor as parent is returned as its constructor filled it in, with its
    constructor's rank and without any record of it in the Minor; and
    [Belt(nm, minor)] raises [AttributeError], a Minor having no
    [bodyType]. *)
Theorem nothing_under_Minor d (h : heap) m o :
  h !! m = Some o -> cls o = KMinor ->
  (forall c, call_subAssign (S d) (VRef m) c h = (h, Ok tt)) /\
  (forall k nm,
     construct k (S d) nm (VRef m) h
     = (h ++ [fresh k nm (VRef m)],
        match k with
        | CBelt _ => Raise AttributeError
        | _ => Ok (length h)
        end)).
Proof.
  intros Hm Hk. split.
  - intros c. now apply (Minor_subAssign_noop d m o).
  - intros k nm. rewrite construct_run.
    set (x := fresh k nm (VRef m)). set (h0 := h ++ [x]).
    assert (Hx0 : h0 !! length h = Some x) by apply lookup_new.
    assert (Hm0 : h0 !! m = Some o) by now apply lookup_app_l_Some.
    assert (Hrun : assign_to_parent (S d) (length h) h0 = (h0, Ok tt)).
    { rewrite (assign_to_parent_run _ _ _ _ _ Hx0 (parent_fresh k nm (VRef m))).
      unfold try_except.
      now rewrite (Minor_subAssign_noop d m o _ h0 Hm0 Hk). }
    unfold bind at 1. rewrite Hrun.
    destruct k; try reflexivity.
    unfold bind at 1, finish.
    rewrite (bind_ok _ _ _ _ _ (getattr_ok parent _ _ _ _ Hx0 eq_refl)).
    assert (Hbt : bodyType o = None) by (unfold bodyType; now rewrite Hk).
    now rewrite (bind_raise _ _ _ _ _ (getattr_missing bodyType _ _ _ Hm0 Hbt)).
Qed.

Lemma nothing_under_Minor_witness :
  construct CPlanet 3 "Moonlet" (VRef 5) sample_heap
  = (sample_heap ++ [fresh CPlanet "Moonlet" (VRef 5)], Ok 7) /\
  construct (CBelt 3) 3 "Dust" (VRef 5) sample_heap
  = (sample_heap ++ [fresh (CBelt 3) "Dust" (VRef 5)], Raise AttributeError).
Proof.
  pose proof (nothing_under_Minor 2 sample_heap 5
                (mkObj KMinor (Some "Vesta") (Some (VRef 4)) (Some 4%Z) None
                   None None None) eq_refl eq_refl) as (_ & H).
  split; [exact (H CPlanet "Moonlet")|exact (H (CBelt 3) "Dust")].
Defined.

(** ** Building directly under a System *)

Lemma bodyRank_fresh k nm par : bodyRank (fresh k nm par) = Some (ctor_rank k).
Proof. now destruct k. Qed.

Lemma finish_under_System k self (h : heap) om sys oS :
  h !! self = Some om -> parent om = Some (VRef sys) ->
  h !! sys = Some oS -> cls oS = KSystem ->
  finish k self h =
  (match k with
   | CBelt _ => <[self := with_bodySubtype "Cloud" om]> h
   | _ => h
   end, Ok tt).
Proof.
  intros Hm Hp HS Hk. destruct k; try reflexivity. unfold finish.
  assert (Hbt : bodyType oS = Some "System")
    by (unfold bodyType; now rewrite Hk).
  rewrite (bind_ok _ _ _ _ _ (getattr_ok parent _ _ _ _ Hm Hp)).
  rewrite (bind_ok _ _ _ _ _ (getattr_ok bodyType _ _ _ _ HS Hbt)).
  change (String.eqb "System" "Star") with false. cbv iota.
  rewrite (bind_ok _ _ _ _ _ (getattr_ok parent _ _ _ _ Hm Hp)).
  rewrite (bind_ok _ _ _ _ _ (getattr_ok bodyType _ _ _ _ HS Hbt)).
  change (String.eqb "System" "Planet") with false. cbv iota.
  now rewrite (setattr_ok _ _ _ _ Hm).
Qed.

(** X6. Building directly under a [System], for each of the five
    constructors: the construction returns the new instance, which keeps
    the rank its constructor assigns (3 for a Planet, 2 for a Star, 4 for
    a Minor, the [rank] argument for a System or a Belt); it is appended
    to the System's [bodies] when that rank exceeds the System's, to
    [heads] when the two are equal, and to neither list when it is
    smaller.  A Belt gets the subtype "Cloud". *)
Theorem construct_under_System k d nm (h : heap) sys oS rs hs bs :
  h !! sys = Some oS -> cls oS = KSystem -> bodyRank oS = Some rs ->
  heads oS = Some hs -> bodies oS = Some bs ->
  ((ctor_rank k > rs)%Z ->
     construct k (S d) nm (VRef sys) h
     = (<[sys := with_bodies (bs ++ [VRef (length h)]) oS]>
          (h ++ [finished k nm (VRef sys)]), Ok (length h))) /\
  ((ctor_rank k = rs)%Z ->
     construct k (S d) nm (VRef sys) h
     = (<[sys := with_heads (hs ++ [VRef (length h)]) oS]>
          (h ++ [finished k nm (VRef sys)]), Ok (length h))) /\
  ((ctor_rank k < rs)%Z ->
     construct k (S d) nm (VRef sys) h
     = (h ++ [finished k nm (VRef sys)], Ok (length h))).
Proof.
  intros HS Hk Hrs Hhs Hbs.
  pose proof (lookup_lt_Some _ _ _ HS) as Hlt.
  rewrite construct_run.
  set (x := fresh k nm (VRef sys)). set (h0 := h ++ [x]).
  assert (Hx0 : h0 !! length h = Some x) by apply lookup_new.
  assert (HS0 : h0 !! sys = Some oS) by now apply lookup_app_l_Some.
  assert (Hne : sys <> length h) by lia.
  assert (Hassign : assign_to_parent (S d) (length h) h0
                    = System_subAssign sys (VRef (length h)) h0).
  { rewrite (assign_to_parent_run _ _ _ _ _ Hx0 (parent_fresh k nm (VRef sys))).
    unfold try_except at 1.
    rewrite (call_subAssign_System d _ _ _ _ HS0 Hk).
    apply System_subAssign_guarded. }
  destruct (System_subAssign_by_rank sys oS rs (length h) x (ctor_rank k) h0
              HS0 Hrs Hx0 (bodyRank_fresh k nm (VRef sys)))
    as (Hbod & Hhead & Hnone).
  assert (Hfin : finished k nm (VRef sys)
            = match k with CBelt _ => with_bodySubtype "Cloud" x | _ => x end)
    by now destruct k.
  assert (Hend : forall (h2 : heap) oS2,
            h2 !! length h = Some x -> h2 !! sys = Some oS2 ->
            cls oS2 = KSystem ->
            (finish k (length h) ;; ret (length h)) h2
            = (match k with
               | CBelt _ => <[length h := with_bodySubtype "Cloud" x]> h2
               | _ => h2
               end, Ok (length h))).
  { intros h2 oS2 Hx2 HS2 Hk2. unfold bind.
    now rewrite (finish_under_System k _ h2 x sys oS2 Hx2
                   (parent_fresh k nm (VRef sys)) HS2 Hk2). }
  assert (Hswap : forall y : obj,
            match k with
            | CBelt _ => <[length h := with_bodySubtype "Cloud" x]> (<[sys := y]> h0)
            | _ => <[sys := y]> h0
            end = <[sys := y]> (h ++ [finished k nm (VRef sys)])).
  { intros y. rewrite Hfin. destruct k; try reflexivity.
    rewrite list_insert_insert_ne by lia. unfold h0. now rewrite insert_new. }
  split; [|split]; intros Hcmp; unfold bind at 1; rewrite Hassign.
  - rewrite (Hbod bs Hbs Hcmp).
    rewrite (Hend _ (with_bodies (bs ++ [VRef (length h)]) oS)); auto.
    + now rewrite Hswap.
    + now rewrite list_lookup_insert_ne.
    + apply list_lookup_insert_eq. unfold h0. rewrite length_app. lia.
  - rewrite (Hhead hs Hhs Hcmp).
    rewrite (Hend _ (with_heads (hs ++ [VRef (length h)]) oS)); auto.
    + now rewrite Hswap.
    + now rewrite list_lookup_insert_ne.
    + apply list_lookup_insert_eq. unfold h0. rewrite length_app. lia.
  - rewrite (Hnone Hcmp). rewrite (Hend _ oS); auto.
    rewrite Hfin. destruct k; try reflexivity.
    unfold h0. now rewrite insert_new.
Qed.

Lemma construct_under_System_witness :
  construct (CBelt 3) 1 "Kuiper Belt" (VRef 0) sample_heap
  = (<[0 := with_bodies [VRef 2; VRef 3; VRef 4; VRef 5; VRef 7]
              (mkObj KSystem (Some "Sol") (Some VNone) (Some 2%Z) None
                 (Some [VRef 1]) (Some [VRef 2; VRef 3; VRef 4; VRef 5]) None)]>
       (sample_heap ++ [finished (CBelt 3) "Kuiper Belt" (VRef 0)]),
     Ok 7).
Proof.
  refine (proj1 (construct_under_System (CBelt 3) 0 "Kuiper Belt" sample_heap 0
                   (mkObj KSystem (Some "Sol") (Some VNone) (Some 2%Z) None
                      (Some [VRef 1]) (Some [VRef 2; VRef 3; VRef 4; VRef 5])
                      None)
                   2%Z [VRef 1] [VRef 2; VRef 3; VRef 4; VRef 5]
                   eq_refl eq_refl eq_refl eq_refl eq_refl) _).
  simpl. lia.
Defined.

(** ** [subAssign] that stops half way *)

Lemma Body_subAssign_orphan d (h : heap) b o os r c oc path :
  h !! b = Some o -> orbitals o = Some os -> bodyRank o = Some r ->
  h !! c = Some oc ->
  ancestry h b path VNone -> c ∉ path -> length path <= d ->
  Body_subAssign (call_system d) (call_subAssign d) b (VRef c) h
  = (attached h b o os r c oc, Ok tt).
Proof.
  intros Hb Hos Hr Hc Hanc Hnin Hd.
  destruct (ancestry_head _ _ _ _ Hanc) as (rest & ->).
  assert (Hne : c <> b) by (apply not_elem_of_cons in Hnin; tauto).
  unfold Body_subAssign. unfold try_except at 1.
  rewrite (attach_run _ _ _ _ _ _ _ _ Hb Hos Hr Hc Hne).
  pose proof (ancestry_attached h b o os r c oc _ _ _ Hanc Hb Hnin) as Hanc1.
  pose proof (call_system_ancestry _ _ _ _ Hanc1 d Hd) as Hsys.
  unfold bind at 1. rewrite Hsys. reflexivity.
Qed.

(** X7. A generic [Body] or [Planet] above which no [System] is found (the
    parent chain ends at an object without parent): [subAssign] of a child
    that is not on that chain makes the three local assignments, touches
    nothing else and returns normally. *)
Theorem Body_without_System d (h : heap) b o os r c oc path :
  h !! b = Some o -> cls o = KBody \/ cls o = KPlanet ->
  orbitals o = Some os -> bodyRank o = Some r ->
  h !! c = Some oc ->
  ancestry h b path VNone -> c ∉ path -> length path <= d ->
  call_subAssign (S d) (VRef b) (VRef c) h
  = (<[c := with_bodyRank (r + 1) (with_parent (VRef b) oc)]>
       (<[b := with_orbitals (os ++ [VRef c]) o]> h), Ok tt).
Proof.
  intros Hb Hk Hos Hr Hc Hanc Hnin Hd.
  rewrite (call_subAssign_Body _ _ _ _ _ Hb Hk).
  now rewrite (Body_subAssign_orphan d h b o os r c oc path).
Qed.

Lemma Body_without_System_witness :
  call_subAssign 2 (VRef 6) (VRef 3) sample_heap
  = (<[3 := mkObj KPlanet (Some "Luna") (Some (VRef 6)) (Some 4%Z) (Some [])
              None None None]>
       (<[6 := mkObj KPlanet (Some "Rogue") (Some VNone) (Some 3%Z)
                 (Some [VRef 3]) None None None]> sample_heap), Ok tt).
Proof.
  refine (Body_without_System 1 sample_heap 6
            (mkObj KPlanet (Some "Rogue") (Some VNone) (Some 3%Z) (Some [])
               None None None)
            [] 3 3
            (mkObj KPlanet (Some "Luna") (Some (VRef 2)) (Some 4%Z) (Some [])
               None None None)
            [6] eq_refl (or_intror eq_refl) eq_refl eq_refl eq_refl _ _ _).
  - eapply anc_orphan; [reflexivity|discriminate|right; reflexivity].
  - intros Hin. apply elem_of_cons in Hin as [Hin|Hin]; [discriminate|].
    now apply elem_of_nil in Hin.
  - simpl. lia.
Defined.

(** X8. A generic [Body] that has no [bodyRank], as [Body(name)] leaves it:
    [subAssign] appends the child to [orbitals] and sets the child's
    parent, then fails on [self.bodyRank] and returns normally; the child
    keeps the rank it had and nothing is forwarded. *)
Theorem Body_without_rank d (h : heap) b o os c oc :
  h !! b = Some o -> cls o = KBody \/ cls o = KPlanet ->
  orbitals o = Some os -> bodyRank o = None ->
  h !! c = Some oc -> c <> b ->
  call_subAssign (S d) (VRef b) (VRef c) h
  = (<[c := with_parent (VRef b) oc]>
       (<[b := with_orbitals (os ++ [VRef c]) o]> h), Ok tt).
Proof.
  intros Hb Hk Hos Hr Hc Hne.
  pose proof (lookup_lt_Some _ _ _ Hb) as Hlt.
  rewrite (call_subAssign_Body _ _ _ _ _ Hb Hk).
  unfold Body_subAssign, try_except.
  rewrite (bind_ok _ _ _ _ _ (append_to_ok _ _ _ _ _ _ (VRef c) Hb Hos)).
  set (h1 := <[b := with_orbitals (os ++ [VRef c]) o]> h).
  assert (Hc1 : h1 !! c = Some oc)
    by (unfold h1; now rewrite list_lookup_insert_ne).
  rewrite (bind_ok _ _ _ _ _ (setattr_ok _ _ _ _ Hc1)).
  assert (Hb2 : <[c := with_parent (VRef b) oc]> h1 !! b
                = Some (with_orbitals (os ++ [VRef c]) o)).
  { rewrite list_lookup_insert_ne by done. unfold h1.
    now apply list_lookup_insert_eq. }
  now rewrite (bind_raise _ _ _ _ _ (getattr_missing bodyRank _ _ _ Hb2 Hr)).
Qed.

Lemma Body_without_rank_witness :
  call_subAssign 1 (VRef 0) (VRef 2) loose_heap
  = (<[2 := mkObj KPlanet (Some "Wanderer") (Some (VRef 0)) (Some 3%Z)
              (Some []) None None None]>
       (<[0 := mkObj KBody (Some "Drifter") None None (Some [VRef 2]) None
                 None None]> loose_heap), Ok tt).
Proof.
  refine (Body_without_rank 0 loose_heap 0
            (mkObj KBody (Some "Drifter") None None (Some []) None None None)
            [] 2
            (mkObj KPlanet (Some "Wanderer") (Some VNone) (Some 3%Z) (Some [])
               None None None)
            eq_refl (or_introl eq_refl) eq_refl eq_refl eq_refl _).
  lia.
Defined.

(** X9. [None] passed as the child.  A Star, Belt, Body or Planet appends
    [None] to its [orbitals] before the assignment to [childNew.parent]
    fails, and returns normally with the [None] left in the list; a System
    and a Minor change nothing. *)
Theorem subAssign_None_child d (h : heap) b o :
  h !! b = Some o ->
  (forall os,
     cls o <> KSystem -> cls o <> KMinor -> orbitals o = Some os ->
     call_subAssign (S d) (VRef b) VNone h
     = (<[b := with_orbitals (os ++ [VNone]) o]> h, Ok tt)) /\
  (cls o = KSystem \/ cls o = KMinor ->
     call_subAssign (S d) (VRef b) VNone h = (h, Ok tt)).
Proof.
  intros Hb. split.
  - intros os Hns Hnm Hos.
    assert (Hrun : forall sys sub,
              Body_subAssign sys sub b VNone h
              = (<[b := with_orbitals (os ++ [VNone]) o]> h, Ok tt) /\
              Star_subAssign sub b VNone h
              = (<[b := with_orbitals (os ++ [VNone]) o]> h, Ok tt)).
    { intros sys sub. unfold Body_subAssign, Star_subAssign, try_except.
      now rewrite !(bind_ok _ _ _ _ _ (append_to_ok _ _ _ _ _ _ VNone Hb Hos)). }
    destruct (cls o) eqn:Hk; try contradiction.
    + rewrite (call_subAssign_Body _ _ _ _ _ Hb (or_introl Hk)).
      exact (proj1 (Hrun _ _)).
    + rewrite (call_subAssign_Body _ _ _ _ _ Hb (or_intror Hk)).
      exact (proj1 (Hrun _ _)).
    + rewrite (call_subAssign_Star _ _ _ _ _ Hb Hk).
      exact (proj2 (Hrun (call_system d) _)).
    + rewrite (call_subAssign_Belt _ _ _ _ _ Hb Hk), Belt_subAssign_eq.
      exact (proj2 (Hrun (call_system d) _)).
  - intros [Hk|Hk].
    + rewrite (call_subAssign_System d _ _ _ _ Hb Hk). reflexivity.
    + now apply (Minor_subAssign_noop d b o).
Qed.

Lemma subAssign_None_child_witness :
  call_subAssign 1 (VRef 1) VNone sample_heap
  = (<[1 := mkObj KStar (Some "Sun") (Some (VRef 0)) (Some 2%Z)
              (Some [VRef 2; VNone]) None None None]> sample_heap, Ok tt) /\
  call_subAssign 1 (VRef 0) VNone sample_heap = (sample_heap, Ok tt).
Proof.
  split.
  - refine (proj1 (subAssign_None_child 0 sample_heap 1
                     (mkObj KStar (Some "Sun") (Some (VRef 0)) (Some 2%Z)
                        (Some [VRef 2]) None None None) eq_refl)
              [VRef 2] _ _ eq_refl); discriminate.
  - exact (proj2 (subAssign_None_child 0 sample_heap 0
                    (mkObj KSystem (Some "Sol") (Some VNone) (Some 2%Z) None
                       (Some [VRef 1]) (Some [VRef 2; VRef 3; VRef 4; VRef 5])
                       None) eq_refl)
             (or_introl eq_refl)).
Defined.

(** ** A body built below a chain of ancestors *)

Lemma ancestry_transfer (h h' : heap) l path r :
  (forall a o, h !! a = Some o ->
     exists o', h' !! a = Some o' /\ cls o' = cls o /\ parent o' = parent o) ->
  ancestry h l path r -> ancestry h' l path r.
Proof.
  intros Hlinks.
  induction 1 as [l o Hl Hk|l o Hl Hk Hp|l o p path r Hl Hk Hp Hanc IH];
    destruct (Hlinks _ _ Hl) as (o' & Hl' & Hk' & Hp').
  - eapply anc_system; eauto. congruence.
  - eapply anc_orphan; eauto; congruence.
  - eapply anc_step; eauto; congruence.
Qed.

Lemma ancestry_allocated (h : heap) l path r :
  ancestry h l path r -> length h ∉ path.
Proof.
  induction 1 as [l o Hl Hk|l o Hl Hk Hp|l o p path r Hl Hk Hp Hanc IH];
    apply lookup_lt_Some in Hl; intros Hin;
    apply elem_of_cons in Hin as [Hin|Hin]; try lia;
    try (now apply elem_of_nil in Hin); contradiction.
Qed.

Lemma ancestry_new (h : heap) x l path r :
  ancestry h l path r -> ancestry (h ++ [x]) l path r.
Proof.
  apply ancestry_transfer. intros a o Ha.
  exists o. split; [now apply lookup_app_l_Some|split; reflexivity].
Qed.

Lemma assign_under_Body d (h : heap) P oP os r k nm path res :
  h !! P = Some oP -> cls oP = KBody \/ cls oP = KPlanet ->
  orbitals oP = Some os -> bodyRank oP = Some r ->
  ancestry h P path res -> length path <= d ->
  exists h2, assign_to_parent (S d) (length h) (h ++ [fresh k nm (VRef P)])
             = (h2, Ok tt).
Proof.
  intros HP Hk Hos Hr Hanc Hd.
  set (x := fresh k nm (VRef P)). set (h0 := h ++ [x]).
  assert (Hx0 : h0 !! length h = Some x) by apply lookup_new.
  assert (HP0 : h0 !! P = Some oP) by now apply lookup_app_l_Some.
  pose proof (ancestry_new h x _ _ _ Hanc) as Hanc0. fold h0 in Hanc0.
  pose proof (ancestry_allocated _ _ _ _ Hanc) as Hnin.
  rewrite (assign_to_parent_run _ _ _ _ _ Hx0 (parent_fresh k nm (VRef P))).
  unfold try_except.
  rewrite (call_subAssign_Body _ _ _ _ _ HP0 Hk).
  destruct res as [|sys].
  - rewrite (Body_subAssign_orphan d h0 P oP os r (length h) x path
               HP0 Hos Hr Hx0 Hanc0 Hnin Hd). eauto.
  - rewrite (Body_subAssign_run d h0 P oP os r (length h) x path sys
               HP0 Hos Hr Hx0 Hanc0 Hnin Hd).
    destruct (System_subAssign_shape sys (VRef (length h))
                (attached h0 P oP os r (length h) x)) as (h2 & -> & _).
    eauto.
Qed.

Lemma finish_Belt_run rk self om P oP bt (h : heap) :
  h !! self = Some om -> parent om = Some (VRef P) ->
  h !! P = Some oP -> bodyType oP = Some bt ->
  finish (CBelt rk) self h
  = (<[self := with_bodySubtype (Belt_subtype_of bt) om]> h, Ok tt).
Proof.
  intros Hm Hpm HP Hbt. unfold finish, Belt_subtype_of.
  rewrite (bind_ok _ _ _ _ _ (getattr_ok parent _ _ _ _ Hm Hpm)).
  rewrite (bind_ok _ _ _ _ _ (getattr_ok bodyType _ _ _ _ HP Hbt)).
  destruct (String.eqb bt "Star").
  - now rewrite (setattr_ok _ _ _ _ Hm).
  - rewrite (bind_ok _ _ _ _ _ (getattr_ok parent _ _ _ _ Hm Hpm)).
    rewrite (bind_ok _ _ _ _ _ (getattr_ok bodyType _ _ _ _ HP Hbt)).
    destruct (String.eqb bt "Planet"); now rewrite (setattr_ok _ _ _ _ Hm).
Qed.

(** X10. The subtype of a Belt.  [Belt(nm, P)] for a Star, a Belt, or a
    Planet whose ancestor chain ends returns the new Belt with
    [bodySubtype] "Belt" around a Star, "Ring" around a Planet and "Cloud"
    around a Belt; the Belt has [P] as parent and [P]'s rank plus one,
    whatever [rank] was passed. *)
Theorem Belt_subtype_by_parent d nm rk (h : heap) P oP os r :
  h !! P = Some oP -> orbitals oP = Some os -> bodyRank oP = Some r ->
  cls oP = KStar \/ cls oP = KBelt \/
  (cls oP = KPlanet /\
   exists path res, ancestry h P path res /\ length path <= S d) ->
  exists h' oB,
    Belt_new (S (S d)) nm (VRef P) rk h = (h', Ok (length h)) /\
    h' !! length h = Some oB /\
    bodySubtype oB
    = Some (match cls oP with
            | KStar => "Belt"
            | KPlanet => "Ring"
            | _ => "Cloud"
            end) /\
    parent oB = Some (VRef P) /\ bodyRank oB = Some (r + 1)%Z.
Proof.
  intros HP Hos Hr Hk.
  pose proof (lookup_lt_Some _ _ _ HP) as Hlt.
  assert (Hns : cls oP <> KSystem)
    by (destruct Hk as [E|[E|[E _]]]; rewrite E; discriminate).
  assert (Hnm : cls oP <> KMinor)
    by (destruct Hk as [E|[E|[E _]]]; rewrite E; discriminate).
  set (x := fresh (CBelt rk) nm (VRef P)). set (h0 := h ++ [x]).
  set (h1 := attached h0 P oP os r (length h) x).
  assert (Hx0 : h0 !! length h = Some x) by apply lookup_new.
  assert (HP0 : h0 !! P = Some oP) by now apply lookup_app_l_Some.
  assert (Hne : length h <> P) by lia.
  pose proof (attached_self h0 P oP os r (length h) x HP0 Hne) as HP1.
  pose proof (attached_child h0 P oP os r (length h) x Hx0) as Hx1.
  fold h1 in HP1, Hx1.
  assert (Hok : exists h2, assign_to_parent (S (S d)) (length h) h0
                           = (h2, Ok tt)).
  { assert (Hsb : cls oP = KStar \/ cls oP = KBelt ->
              exists h2, assign_to_parent (S (S d)) (length h) h0 = (h2, Ok tt)).
    { intros Hsb.
      pose proof (assign_under_Star_or_Belt d h P oP os r (CBelt rk) nm HP
                    Hsb Hos Hr) as Hrun.
      fold x h0 h1 in Hrun. rewrite Hrun.
      destruct (system_parent h0 oP) as [sys|]; [|eauto].
      destruct (System_subAssign_shape sys (VRef (length h)) h1)
        as (h2 & -> & _). eauto. }
    destruct Hk as [Hk|[Hk|(Hk & path & res & Hanc & Hd)]]; auto.
    eapply assign_under_Body; eauto. }
  destruct Hok as (h2 & Hok).
  pose proof (assign_to_parent_core (S d) h P oP os r (CBelt rk) nm HP Hns Hnm
                Hos Hr) as Hcore.
  fold x h0 h1 in Hcore. rewrite Hok in Hcore. simpl in Hcore.
  destruct (core_lookup _ _ _ _ Hcore Hx1) as (om & Hm2 & Hcm).
  destruct (core_lookup _ _ _ _ Hcore HP1) as (oP2 & HP2 & HcP).
  assert (Hbt : bodyType oP2
                = Some (match cls oP with
                        | KStar => "Star" | KPlanet => "Planet" | _ => "Belt"
                        end)).
  { unfold bodyType. unfold core in HcP. simpl in HcP.
    replace (cls oP2) with (cls oP) by congruence.
    destruct Hk as [E|[E|[E _]]]; now rewrite E. }
  change (Belt_new (S (S d)) nm (VRef P) rk h)
    with (construct (CBelt rk) (S (S d)) nm (VRef P) h).
  rewrite construct_run. fold x h0.
  unfold bind at 1. rewrite Hok. unfold bind at 1.
  assert (Hpm : parent om = Some (VRef P))
    by (unfold core in Hcm; simpl in Hcm; congruence).
  rewrite (finish_Belt_run rk _ om P oP2 _ h2 Hm2 Hpm HP2 Hbt).
  eexists _, _. split; [reflexivity|]. split.
  - apply list_lookup_insert_eq. eapply lookup_lt_Some; eauto.
  - split; [|split].
    + simpl. f_equal. destruct Hk as [E|[E|[E _]]]; now rewrite E.
    + exact Hpm.
    + unfold core in Hcm; simpl in Hcm. simpl. congruence.
Qed.

Lemma Belt_subtype_by_parent_witness :
  exists h' oB,
    Belt_new 5 "Rings" (VRef 2) 3 sample_heap = (h', Ok 7) /\
    h' !! 7 = Some oB /\
    bodySubtype oB = Some "Ring" /\
    parent oB = Some (VRef 2) /\ bodyRank oB = Some 4%Z.
Proof.
  refine (Belt_subtype_by_parent 3 "Rings" 3 sample_heap 2
            (mkObj KPlanet (Some "Earth") (Some (VRef 1)) (Some 3%Z)
               (Some [VRef 3]) None None None)
            [VRef 3] 3 eq_refl eq_refl eq_refl
            (or_intror (or_intror (conj eq_refl _)))).
  exists [2; 1; 0], (VRef 0). split; [|simpl; lia].
  eapply anc_step; [reflexivity|discriminate|reflexivity|].
  eapply anc_step; [reflexivity|discriminate|reflexivity|].
  eapply anc_system; reflexivity.
Defined.

Lemma cls_fresh_System k nm par :
  cls (fresh k nm par) = KSystem <-> exists rk, k = CSystem rk.
Proof.
  destruct k; simpl; split; try discriminate; eauto;
    intros (rk & E); discriminate.
Qed.

(** Class and parent of every object after a construction under [P]: the
    objects that were there keep theirs, the new one has the class of its
    constructor and [P] as parent. *)
Lemma construct_links k d nm (h : heap) P oP :
  h !! P = Some oP ->
  cls oP = KSystem \/
  (cls oP <> KSystem /\ cls oP <> KMinor /\
   exists os r, orbitals oP = Some os /\ bodyRank oP = Some r) ->
  (forall a o, h !! a = Some o ->
     exists o', fst (construct k (S d) nm (VRef P) h) !! a = Some o' /\
       cls o' = cls o /\ parent o' = parent o) /\
  (exists oB, fst (construct k (S d) nm (VRef P) h) !! length h = Some oB /\
     cls oB = cls (fresh k nm (VRef P)) /\ parent oB = Some (VRef P)).
Proof.
  intros HP Hcase.
  pose proof (lookup_lt_Some _ _ _ HP) as Hlt.
  set (x := fresh k nm (VRef P)). set (h0 := h ++ [x]).
  assert (Hx0 : h0 !! length h = Some x) by apply lookup_new.
  assert (HP0 : h0 !! P = Some oP) by now apply lookup_app_l_Some.
  pose proof (construct_heap k (S d) nm (VRef P) h) as Hattrs.
  destruct Hcase as [Hk|(Hns & Hnm & os & r & Hos & Hr)].
  - rewrite (core_attrs _ _ (assign_under_System_core (S d) h P oP k nm HP Hk))
      in Hattrs. fold x h0 in Hattrs.
    split.
    + intros a o Ha.
      destruct (attrs_lookup _ _ _ _ Hattrs (lookup_app_l_Some _ [x] _ _ Ha))
        as (o' & Ho' & Hc & Hp & _). eauto.
    + destruct (attrs_lookup _ _ _ _ Hattrs Hx0) as (oB & HB & Hc & Hp & _).
      exists oB. split; [exact HB|]. split; [exact Hc|].
      rewrite Hp. apply parent_fresh.
  - rewrite (core_attrs _ _ (assign_to_parent_core d h P oP os r k nm HP Hns Hnm
                               Hos Hr)) in Hattrs.
    fold x h0 in Hattrs.
    split.
    + intros a o Ha.
      pose proof (lookup_lt_Some _ _ _ Ha) as Hlta.
      destruct (attached_links h0 P oP os r (length h) x a o HP0)
        as (o1 & Ho1 & Hc1 & Hp1); [lia|now apply lookup_app_l_Some|].
      destruct (attrs_lookup _ _ _ _ Hattrs Ho1) as (o' & Ho' & Hc & Hp & _).
      exists o'. split; [exact Ho'|]. split; congruence.
    + destruct (attrs_lookup _ _ _ _ Hattrs
                  (attached_child h0 P oP os r (length h) x Hx0))
        as (oB & HB & Hc & Hp & _).
      exists oB. split; [exact HB|]. split; [exact Hc|exact Hp].
Qed.

(** X11. A body sees the System of its parent.  After any of the
    constructors has run with parent [P], a System or a Star, Belt, Body
    or Planet with [orbitals] and a rank, whose chain of ancestors leads
    to the result [res] of [P.system()], the new body's [system()] returns
    [res] as well: the same System object, or [None].  A new System
    returns itself. *)
Theorem new_body_shares_system k d nm (h : heap) P oP path res d' :
  h !! P = Some oP ->
  cls oP = KSystem \/
  (cls oP <> KSystem /\ cls oP <> KMinor /\
   exists os r, orbitals oP = Some os /\ bodyRank oP = Some r) ->
  ancestry h P path res -> length path < d' ->
  call_system d' (VRef (length h)) (fst (construct k (S d) nm (VRef P) h))
  = (fst (construct k (S d) nm (VRef P) h),
     Ok (match k with CSystem _ => VRef (length h) | _ => res end)).
Proof.
  intros HP Hcase Hanc Hd.
  destruct (construct_links k d nm h P oP HP Hcase)
    as (Hold & oB & HB & HcB & HpB).
  set (h' := fst (construct k (S d) nm (VRef P) h)) in *.
  pose proof (ancestry_transfer h h' _ _ _ Hold Hanc) as Hanc'.
  destruct (decide (cls oB = KSystem)) as [Hk|Hk].
  - assert (Hsys : exists rk, k = CSystem rk)
      by (apply (cls_fresh_System k nm (VRef P)); congruence).
    destruct Hsys as (rk & ->).
    apply (call_system_ancestry h' (length h) [length h]).
    + eapply anc_system; eauto.
    + simpl. lia.
  - assert (Hnot : forall rk, k <> CSystem rk).
    { intros rk ->. apply Hk. rewrite HcB. reflexivity. }
    assert (Hres : match k with CSystem _ => VRef (length h) | _ => res end = res)
      by (destruct k; try reflexivity; now destruct (Hnot rank)).
    rewrite Hres.
    apply (call_system_ancestry h' (length h) (length h :: path)).
    + eapply anc_step; eauto.
    + simpl. lia.
Qed.

Lemma new_body_shares_system_witness :
  call_system 5 (VRef 7) (fst (construct CMinor 3 "Phobos" (VRef 3) sample_heap))
  = (fst (construct CMinor 3 "Phobos" (VRef 3) sample_heap), Ok (VRef 0)).
Proof.
  refine (new_body_shares_system CMinor 2 "Phobos" sample_heap 3
            (mkObj KPlanet (Some "Luna") (Some (VRef 2)) (Some 4%Z) (Some [])
               None None None)
            [3; 2; 1; 0] (VRef 0) 5 eq_refl _ sample_ancestry_Luna _).
  - right. split; [discriminate|]. split; [discriminate|].
    exists [], 4%Z. split; reflexivity.
  - simpl. lia.
Defined.

(** ** The same child twice *)

(** X12. [subAssign] does not look whether the child is already there: a
    Star under a System that is given the same child twice in a row lists
    it twice in its [orbitals], and the System lists it twice in
    [bodies]. *)
Theorem Star_subAssign_twice d (h : heap) st o os r c oc sys oS rs bs :
  h !! st = Some o -> cls o = KStar ->
  orbitals o = Some os -> bodyRank o = Some r ->
  parent o = Some (VRef sys) ->
  h !! sys = Some oS -> cls oS = KSystem ->
  bodyRank oS = Some rs -> bodies oS = Some bs -> (r + 1 > rs)%Z ->
  h !! c = Some oc -> c <> st -> c <> sys ->
  exists h1 h2 oSt oSys,
    call_subAssign (S (S d)) (VRef st) (VRef c) h = (h1, Ok tt) /\
    call_subAssign (S (S d)) (VRef st) (VRef c) h1 = (h2, Ok tt) /\
    h2 !! st = Some oSt /\
    orbitals oSt = Some (os ++ [VRef c; VRef c]) /\
    h2 !! sys = Some oSys /\
    bodies oSys = Some (bs ++ [VRef c; VRef c]).
Proof.
  intros Hs Hk Hos Hr Hp HS HkS Hrs Hbs Hgt Hc Hcs Hcsys.
  assert (Hss : st <> sys) by (intros ->; congruence).
  pose proof (lookup_lt_Some _ _ _ Hs) as Hlts.
  pose proof (lookup_lt_Some _ _ _ HS) as HltS.
  pose proof (lookup_lt_Some _ _ _ Hc) as Hltc.
  assert (Hstep : forall (g : heap) og ogs ocg oSg bsg,
            g !! st = Some og -> cls og = KStar -> orbitals og = Some ogs ->
            bodyRank og = Some r -> parent og = Some (VRef sys) ->
            g !! sys = Some oSg -> cls oSg = KSystem ->
            bodyRank oSg = Some rs -> bodies oSg = Some bsg ->
            g !! c = Some ocg ->
            call_subAssign (S (S d)) (VRef st) (VRef c) g
            = (<[sys := with_bodies (bsg ++ [VRef c]) oSg]>
                 (attached g st og ogs r c ocg), Ok tt)).
  { intros g og ogs ocg oSg bsg Hg Hkg Hog Hrg Hpg HSg HkSg HrSg HbSg Hcg.
    rewrite (call_subAssign_Star _ _ _ _ _ Hg Hkg).
    rewrite (forward_to_parent _ _ _ _ _ _ _ _ Hg Hog Hrg Hcg Hcs).
    unfold system_parent. rewrite Hpg, HSg.
    destruct (decide (cls oSg = KSystem)); [|contradiction].
    assert (HS1 : attached g st og ogs r c ocg !! sys = Some oSg)
      by (rewrite attached_other; auto).
    destruct (System_subAssign_by_rank sys oSg rs c _ (r + 1)%Z _ HS1 HrSg
                (attached_child g st og ogs r c ocg Hcg) eq_refl)
      as (Hbod & _ & _).
    now apply Hbod. }
  pose proof (Hstep h o os oc oS bs Hs Hk Hos Hr Hp HS HkS Hrs Hbs Hc) as H1.
  set (h1 := <[sys := with_bodies (bs ++ [VRef c]) oS]>
               (attached h st o os r c oc)) in *.
  assert (Hlen : length (attached h st o os r c oc) = length h)
    by (unfold attached; now rewrite !length_insert).
  assert (Hs1 : h1 !! st = Some (with_orbitals (os ++ [VRef c]) o)).
  { unfold h1. rewrite list_lookup_insert_ne by auto.
    now apply attached_self. }
  assert (HS1 : h1 !! sys = Some (with_bodies (bs ++ [VRef c]) oS)).
  { unfold h1. apply list_lookup_insert_eq. lia. }
  assert (Hc1 : h1 !! c
                = Some (with_bodyRank (r + 1) (with_parent (VRef st) oc))).
  { unfold h1. rewrite list_lookup_insert_ne by auto.
    now apply attached_child. }
  pose proof (Hstep h1 _ (os ++ [VRef c]) _ _ (bs ++ [VRef c]) Hs1 Hk eq_refl
                Hr Hp HS1 HkS Hrs eq_refl Hc1) as H2.
  eexists _, _, _, _. split; [exact H1|]. split; [exact H2|].
  assert (Hlen1 : length h1 = length h)
    by (unfold h1; now rewrite length_insert).
  split; [|split; [|split]].
  - rewrite list_lookup_insert_ne by auto. now apply attached_self.
  - simpl. now rewrite <- app_assoc.
  - apply list_lookup_insert_eq. unfold attached.
    rewrite !length_insert. lia.
  - simpl. now rewrite <- app_assoc.
Qed.

Lemma Star_subAssign_twice_witness :
  exists h1 h2 oSt oSys,
    call_subAssign 2 (VRef 1) (VRef 6) sample_heap = (h1, Ok tt) /\
    call_subAssign 2 (VRef 1) (VRef 6) h1 = (h2, Ok tt) /\
    h2 !! 1 = Some oSt /\
    orbitals oSt = Some [VRef 2; VRef 6; VRef 6] /\
    h2 !! 0 = Some oSys /\
    bodies oSys = Some [VRef 2; VRef 3; VRef 4; VRef 5; VRef 6; VRef 6].
Proof.
  refine (Star_subAssign_twice 0 sample_heap 1
            (mkObj KStar (Some "Sun") (Some (VRef 0)) (Some 2%Z)
               (Some [VRef 2]) None None None)
            [VRef 2] 2 6
            (mkObj KPlanet (Some "Rogue") (Some VNone) (Some 3%Z) (Some [])
               None None None)
            0
            (mkObj KSystem (Some "Sol") (Some VNone) (Some 2%Z) None
               (Some [VRef 1]) (Some [VRef 2; VRef 3; VRef 4; VRef 5]) None)
            2%Z [VRef 2; VRef 3; VRef 4; VRef 5]
            eq_refl eq_refl eq_refl eq_refl eq_refl eq_refl eq_refl eq_refl
            eq_refl _ eq_refl _ _); lia.
Defined.

(** ** [findLargestProportion] *)

Section StableSort.
Context {A : Type} (lt : A -> A -> bool).
Hypothesis lt_irrefl : forall a, lt a a = false.
Hypothesis lt_trans :
  forall a b c, lt a b = true -> lt b c = true -> lt a c = true.
Hypothesis lt_cotrans :
  forall a b c, lt a b = true -> lt a c = true \/ lt c b = true.

Lemma lt_asym a b : lt a b = true -> lt b a = false.
Proof.
  intros Hab. destruct (lt b a) eqn:Hba; [|reflexivity].
  rewrite <- (lt_irrefl a). symmetry. eapply lt_trans; eauto.
Qed.

Lemma le_lt_false a b c : not_after lt a b -> lt a c = false -> lt b c = false.
Proof.
  unfold not_after. intros Hab Hac. destruct (lt b c) eqn:Hbc; [|reflexivity].
  destruct (lt_cotrans _ _ a Hbc) as [H|H]; congruence.
Qed.

Lemma ins_elem x l a : a ∈ ins lt x l <-> a = x \/ a ∈ l.
Proof.
  induction l as [|y l IH]; simpl.
  - rewrite list_elem_of_singleton, elem_of_nil. tauto.
  - destruct (lt y x); rewrite !elem_of_cons; [rewrite IH|]; tauto.
Qed.

Lemma ins_sorted x l :
  StronglySorted (not_after lt) l -> StronglySorted (not_after lt) (ins lt x l).
Proof.
  induction 1 as [|y l Hs IH Hall]; simpl.
  - repeat constructor.
  - destruct (lt y x) eqn:Hyx.
    + constructor; [exact IH|].
      apply list.Forall_forall. intros a Ha. apply ins_elem in Ha as [->|Ha].
      * unfold not_after. now apply lt_asym.
      * rewrite list.Forall_forall in Hall. now apply Hall.
    + constructor; [now constructor|].
      constructor; [exact Hyx|].
      apply list.Forall_forall. intros a Ha.
      rewrite list.Forall_forall in Hall. specialize (Hall _ Ha).
      unfold not_after in *. now apply (le_lt_false y a x).
Qed.

Lemma sort_asc_sorted l : StronglySorted (not_after lt) (sort_asc lt l).
Proof.
  induction l as [|x l IH]; simpl; [constructor|now apply ins_sorted].
Qed.

Lemma ins_not_nil x l : ins lt x l <> [].
Proof. destruct l as [|y l]; simpl; [|destruct (lt y x)]; discriminate. Qed.

(** Where [ins] leaves the last place: to [x] only if [x] is greater
    than the greatest so far. *)
Lemma last_ins x l :
  StronglySorted (not_after lt) l ->
  last (ins lt x l)
  = match last l with
    | None => Some x
    | Some m => if lt m x then Some x else Some m
    end.
Proof.
  induction 1 as [|y l Hs IH Hall]; [reflexivity|]. simpl ins.
  destruct (lt y x) eqn:Hyx.
  - rewrite last_cons, IH, last_cons.
    destruct (last l) as [m|]; [|now rewrite Hyx].
    now destruct (lt m x).
  - rewrite last_cons_cons.
    destruct (last (y :: l)) as [m|] eqn:Hm;
    [|apply last_None in Hm; discriminate].
    assert (Hin : m ∈ y :: l) by now apply last_Some_elem_of.
    assert (Hmx : lt m x = false).
    { apply elem_of_cons in Hin as [->|Hin]; [exact Hyx|].
      rewrite list.Forall_forall in Hall. specialize (Hall _ Hin).
      now apply (le_lt_false y m x). }
    now rewrite Hmx.
Qed.

(** The last element of the sorted list is the last greatest element of
    the input. *)
Lemma last_sort_asc l :
  match last (sort_asc lt l) with
  | None => l = []
  | Some m =>
      exists pre post, l = pre ++ m :: post /\
        Forall (fun a => lt m a = false) pre /\
        Forall (fun a => lt a m = true) post
  end.
Proof.
  induction l as [|x l IH]; [reflexivity|]. simpl sort_asc.
  rewrite (last_ins x _ (sort_asc_sorted l)).
  destruct (last (sort_asc lt l)) as [m|].
  - destruct IH as (pre & post & -> & Hpre & Hpost).
    destruct (lt m x) eqn:Hmx.
    + exists [], (pre ++ m :: post). split; [reflexivity|].
      split; [constructor|].
      apply Forall_app. split; [|constructor; [exact Hmx|]].
      * apply list.Forall_forall. intros a Ha.
        rewrite list.Forall_forall in Hpre. specialize (Hpre _ Ha).
        destruct (lt_cotrans _ _ a Hmx) as [H|H]; congruence.
      * eapply Forall_impl; [exact Hpost|]. intros a Ha. simpl in Ha.
        eapply lt_trans; eauto.
    + exists (x :: pre), post. split; [reflexivity|].
      split; [constructor; assumption|exact Hpost].
  - subst l. exists [], []. repeat split; constructor.
Qed.
End StableSort.

(** X14. [findLargestProportion] raises [IndexError] on an empty dict.  On
    any other it returns a key whose value no other value exceeds, and
    among several such keys the one inserted first: every item before it
    has a strictly smaller value.  (The values are compared with [<],
    taken to be a strict order in which equivalence is transitive.) *)
Theorem findLargestProportion_first_largest {V} (lt : V -> V -> bool)
    (din : list (string * V)) :
  (forall a, lt a a = false) ->
  (forall a b c, lt a b = true -> lt b c = true -> lt a c = true) ->
  (forall a b c, lt a b = true -> lt a c = true \/ lt c b = true) ->
  match din with
  | [] => findLargestProportion lt din = inr IndexError
  | _ :: _ =>
      exists k v before after,
        findLargestProportion lt din = inl k /\
        din = before ++ (k, v) :: after /\
        Forall (fun kv => lt (snd kv) v = true) before /\
        Forall (fun kv => lt v (snd kv) = false) after
  end.
Proof.
  intros Hirr Htrans Hco.
  destruct din as [|kv0 din0]; [reflexivity|].
  set (din := kv0 :: din0).
  set (ltk := fun a b : string * V => lt (snd a) (snd b)).
  assert (Hlast := last_sort_asc ltk (fun a => Hirr (snd a))
                     (fun a b c => Htrans (snd a) (snd b) (snd c))
                     (fun a b c => Hco (snd a) (snd b) (snd c))
                     (reverse din)).
  unfold findLargestProportion, sorted_reverse. fold ltk.
  destruct (reverse (sort_asc ltk (reverse din))) as [|m rest] eqn:Hrev.
  - apply (f_equal head) in Hrev. rewrite head_reverse in Hrev.
    rewrite Hrev in Hlast. simpl in Hlast.
    apply (f_equal reverse) in Hlast. rewrite reverse_involutive in Hlast.
    discriminate.
  - apply (f_equal head) in Hrev. rewrite head_reverse in Hrev.
    rewrite Hrev in Hlast. simpl in Hlast.
    destruct Hlast as (pre & post & Hsplit & Hpre & Hpost).
    apply (f_equal reverse) in Hsplit.
    rewrite reverse_involutive, reverse_app, reverse_cons in Hsplit.
    rewrite <- app_assoc in Hsplit. simpl in Hsplit.
    destruct m as [k v].
    exists k, v, (reverse post), (reverse pre).
    split; [reflexivity|]. split; [exact Hsplit|].
    split; apply Forall_reverse; assumption.
Qed.

Lemma findLargestProportion_first_largest_witness :
  exists k v before after,
    findLargestProportion Z.ltb [("rock", 40%Z); ("ice", 50%Z); ("dust", 50%Z)]
    = inl k /\
    [("rock", 40%Z); ("ice", 50%Z); ("dust", 50%Z)]
    = before ++ (k, v) :: after /\
    Forall (fun kv => Z.ltb (snd kv) v = true) before /\
    Forall (fun kv => Z.ltb v (snd kv) = false) after.
Proof.
  refine (findLargestProportion_first_largest Z.ltb
            [("rock", 40%Z); ("ice", 50%Z); ("dust", 50%Z)] _ _ _).
  - intros a. apply Z.ltb_irrefl.
  - intros a b c Hab Hbc. apply Z.ltb_lt in Hab, Hbc. apply Z.ltb_lt. lia.
  - intros a b c Hab. apply Z.ltb_lt in Hab.
    destruct (Z.ltb_spec a c); [now left|right]. apply Z.ltb_lt. lia.
Defined.
